(** * Smart Study Scheduler: the schedule time-block conflict model

    A shallow embedding of the schedule part of the server:
    - the Schedule model (server/models/Schedule, in src/server/models/User.ts
      from [export interface ISchedule] on): the Mongoose schema, the
      [hasConflicts] virtual, [parseTime], [addTimeBlock], [removeTimeBlock],
      [toggleActive];
    - the schedules router (src/unnamed/part_001, first module): the handlers
      of POST /api/schedules, PUT /api/schedules/:id, PUT /:id/toggle,
      PUT /:id/time-blocks, DELETE /:id/time-blocks/:blockId and
      GET /:id/conflicts, then GET /, GET /:id and DELETE /:id;
    - the status route of the tasks router with the Task model's
      [updateStatus] (server/routes/tasks.ts), the study-sessions router with
      the StudySession model's methods (src/unnamed/part_001 and part_002),
      and the order of the routes of these two routers.

    Conventions.
    - A JavaScript number that the code only uses as an integer or as NaN is
      an [option Z]: [None] is NaN (the time value of an Invalid Date).
    - The host is explicit: [now] is the value of [Date.now()] when a handler
      runs and [offsetMinutes] the offset of the server's local time from UTC,
      which may change with the instant (daylight saving): local times are
      read as ECMA-262 reads them, through LocalTime and UTC.
    - A text is the sequence of its code units, all below 256.
    - A Mongoose document is the record of its stored fields; the collection is
      a list of documents; a handler is a function from the collection and the
      request to the new collection and the response. The ObjectIds that
      Mongoose generates for a new document and its sub-documents are part of
      the input. The handlers take the [:id] of the path as the ObjectId
      it casts to; the cast of the text, and the 500 for a text that is no
      ObjectId, are in [castObjectId] and the handlers named [...At].
    - A request body is the record of the fields the handler reads, typed as
      the validators and the schema cast them; [type], [priority],
      [frequency] and [action] are enumerations, so a body with another word
      there is not a value of these records. The [dayOfWeek] of a block is a
      JSON number: a body that writes it as a text ("01", "+1", which [isInt]
      lets through and [blocksByDay] files under a key of its own) is not a
      value of these records either. *)

From Stdlib Require Import ZArith List String Ascii Bool Lia Permutation Sorted.
Import ListNotations.
Open Scope string_scope.
Open Scope list_scope.
Open Scope Z_scope.

(** ** JavaScript strings and numbers *)

Module JS.

(** [s.split(sep)] for a one-character separator. *)
Fixpoint split (sep : ascii) (s : string) : list string :=
  match s with
  | EmptyString => [EmptyString]
  | String c rest =>
      if Ascii.eqb c sep then EmptyString :: split sep rest
      else match split sep rest with
           | hd :: tl => String c hd :: tl
           | [] => [String c EmptyString]
           end
  end.

Definition digit (c : ascii) : option Z :=
  let n := Z.of_nat (nat_of_ascii c) in
  if (48 <=? n) && (n <=? 57) then Some (n - 48) else None.

Definition isDigit (c : ascii) : bool :=
  match digit c with Some _ => true | None => false end.

Fixpoint digitsValue (acc : Z) (s : string) : option Z :=
  match s with
  | EmptyString => Some acc
  | String c rest =>
      match digit c with
      | Some d => digitsValue (10 * acc + d) rest
      | None => None
      end
  end.

(** [Number(s)] on the strings a time can be split into: a run of decimal
    digits is its value, the empty string is 0, anything else is NaN here
    (signs, fractions, exponents, hexadecimal literals and surrounding white
    space, which [Number] also reads, cannot occur in a stored time: the
    schema's [match] admits digits and one colon only). *)
Definition Number (s : string) : option Z := digitsValue 0 s.

(** [a - b] and [a > b] on numbers: NaN is absorbing for [-] and makes every
    comparison false. *)
Definition sub (a b : option Z) : option Z :=
  match a, b with
  | Some x, Some y => Some (x - y)
  | _, _ => None
  end.

Definition gt (a b : option Z) : bool :=
  match a, b with
  | Some x, Some y => y <? x
  | _, _ => false
  end.

Definition lt (a b : option Z) : bool := gt b a.

Section Sort.
Context {A : Type}.
(** The comparator of [Array.prototype.sort]: a negative result puts [a]
    first, a positive one puts [b] first, zero and NaN keep the order the
    two had (the sort is stable). *)
Variable compareFn : A -> A -> option Z.

Definition comesAfter (a b : A) : bool :=
  match compareFn a b with
  | Some v => 0 <? v
  | None => false
  end.

Fixpoint insert (a : A) (sorted : list A) : list A :=
  match sorted with
  | [] => [a]
  | b :: rest => if comesAfter a b then b :: insert a rest else a :: sorted
  end.

(** [xs.sort(compareFn)] as a stable insertion sort: every consistent
    comparator gives one stable order, whatever the algorithm. *)
Fixpoint sort (xs : list A) : list A :=
  match xs with
  | [] => []
  | a :: rest => insert a (sort rest)
  end.
End Sort.

End JS.

(** ** The host clock *)

Definition msPerMinute : Z := 60000.
Definition msPerHour : Z := 3600000.
Definition msPerDay : Z := 86400000.

(** [now] is [Date.now()], in milliseconds since the epoch.
    [offsetMinutes t isUTC] is the offset of local time from UTC, in minutes
    (every zone has kept whole minutes since 1972), as LocalTZA(t, isUTC) of
    ECMA-262 gives it: the offset in force at the instant [t] when [isUTC] is
    true; when it is false, the offset with which the local time [t] is read,
    which for a local time that a change of the clocks skips or repeats is
    the offset before the change. *)
Record Host := mkHost {
  now : Z;
  offsetMinutes : Z -> bool -> Z
}.

Definition localTZA (h : Host) (t : Z) (isUTC : bool) : Z :=
  offsetMinutes h t isUTC * msPerMinute.

(** LocalTime(t) and UTC(t) of ECMA-262. *)
Definition LocalTime (h : Host) (t : Z) : Z := t + localTZA h t true.

Definition UTC (h : Host) (local : Z) : Z := local - localTZA h local false.

(** A host whose offset never changes. *)
Definition fixedOffset (time minutes : Z) : Host :=
  mkHost time (fun _ _ => minutes).

(** [Day(LocalTime(now)) * msPerDay]: midnight of the current local day, as a
    local time. *)
Definition localMidnight (h : Host) : Z :=
  let local := LocalTime h (now h) in
  local - local mod msPerDay.

(** [const date = new Date(); date.setHours(hours, minutes, 0, 0);
    date.getTime()]: the local day of now with the time of day replaced
    ([MakeDate(Day(LocalTime(t)), MakeTime(hours, minutes, 0, 0))]), read back
    as an instant by [UTC]. Hours and minutes beyond 23 and 59 carry over, as
    [setHours] does. *)
Definition setHours (h : Host) (hours minutes : Z) : Z :=
  UTC h (localMidnight h + hours * msPerHour + minutes * msPerMinute).

(** ** The schedule document (scheduleSchema, ISchedule) *)

Inductive BlockType := study | break | exercise | other.
Inductive Priority := low | medium | high.
Inductive Frequency := daily | weekly | monthly.
Inductive ExceptionAction := skip | modify.

(** An ObjectId, as the text that [toString()] gives (24 hexadecimal digits;
    the scenarios write shorter names). *)
Definition ObjectId := string.

Record TimeBlock := mkTimeBlock {
  _id : ObjectId;
  dayOfWeek : Z;
  startTime : string;
  endTime : string;
  subject : string;
  taskId : option ObjectId;
  type : BlockType;
  priority : Priority;
  notes : option string
}.

Record Recurring := mkRecurring {
  isRecurring : bool;
  frequency : Frequency;
  startDate : Z;
  endDate : option Z;
  daysOfWeek : list Z
}.

Record ModifiedTimeBlock := mkModifiedTimeBlock {
  mStartTime : string;
  mEndTime : string;
  mSubject : string;
  mType : BlockType
}.

Record ScheduleException := mkScheduleException {
  date : Z;
  reason : string;
  action : ExceptionAction;
  modifiedTimeBlocks : list ModifiedTimeBlock
}.

Record Schedule := mkSchedule {
  scheduleId : ObjectId;
  userId : ObjectId;
  name : string;
  description : option string;
  isActive : bool;
  timeBlocks : list TimeBlock;
  recurring : Recurring;
  exceptions : list ScheduleException;
  createdAt : Z;
  updatedAt : Z
}.

(** ** The model's methods and virtuals *)

(** [scheduleSchema.methods.parseTime]:
    [const [hours, minutes] = timeString.split(':').map(Number)], then the
    time value of today at that hour and minute. A missing minute is
    [undefined] and a NaN component gives an Invalid Date, both NaN. *)
Definition parseTime (h : Host) (timeString : string) : option Z :=
  match map JS.Number (JS.split ":" timeString) with
  | Some hours :: Some minutes :: _ => Some (setHours h hours minutes)
  | _ => None
  end.

(** The object [blocksByDay]: its own keys in the order [for ... in] visits
    them, each with its array. Integer keys that are array indices come first
    in ascending order, the other keys follow in the order they were created. *)
Definition BlocksByDay := list (Z * list TimeBlock).

Definition keyBefore (k k' : Z) : bool := (0 <=? k) && ((k' <? 0) || (k <? k')).

Definition hasKey (d : Z) (m : BlocksByDay) : bool :=
  existsb (fun entry => fst entry =? d) m.

(** [blocksByDay[d] = []] for a key the object does not have yet. *)
Fixpoint newKey (d : Z) (m : BlocksByDay) : BlocksByDay :=
  match m with
  | [] => [(d, [])]
  | (k, blocks) :: rest =>
      if keyBefore d k then (d, []) :: m else (k, blocks) :: newKey d rest
  end.

(** [blocksByDay[d].push(block)] *)
Fixpoint pushInto (d : Z) (block : TimeBlock) (m : BlocksByDay) : BlocksByDay :=
  match m with
  | [] => []
  | (k, blocks) :: rest =>
      if k =? d then (k, blocks ++ [block]) :: rest
      else (k, blocks) :: pushInto d block rest
  end.

(** [if (!blocksByDay[d]) { blocksByDay[d] = []; } blocksByDay[d].push(block)] *)
Definition pushBlock (d : Z) (block : TimeBlock) (m : BlocksByDay) : BlocksByDay :=
  pushInto d block (if hasKey d m then m else newKey d m).

(** [for (const block of blocks) { ... }] starting from [{}]. *)
Definition groupByDay (blocks : list TimeBlock) : BlocksByDay :=
  fold_left (fun m block => pushBlock (dayOfWeek block) block m) blocks [].

Section Walk.
(** The time read from a block's start and from its end. *)
Variable timeOf : string -> option Z.

Definition byStart (a b : TimeBlock) : option Z :=
  JS.sub (timeOf (startTime a)) (timeOf (startTime b)).

(** [for (let i = 0; i < blocks.length - 1; i++)]: the first [i] with
    [end(blocks[i]) > start(blocks[i + 1])], as the pair found. *)
Fixpoint firstOverlap (blocks : list TimeBlock) : option (TimeBlock * TimeBlock) :=
  match blocks with
  | current :: ((next :: _) as rest) =>
      if JS.gt (timeOf (endTime current)) (timeOf (startTime next))
      then Some (current, next)
      else firstOverlap rest
  | _ => None
  end.

(** [for (const day in blocksByDay)]: sort the day's blocks by start, walk
    them, stop at the first overlap. *)
Fixpoint findOverlap (m : BlocksByDay) : option (Z * (TimeBlock * TimeBlock)) :=
  match m with
  | [] => None
  | (day, blocks) :: rest =>
      match firstOverlap (JS.sort byStart blocks) with
      | Some found => Some (day, found)
      | None => findOverlap rest
      end
  end.
End Walk.

(** [scheduleSchema.virtual('hasConflicts')] *)
Definition hasConflicts (h : Host) (s : Schedule) : bool :=
  match findOverlap (parseTime h) (groupByDay (timeBlocks s)) with
  | Some _ => true
  | None => false
  end.

(** [this.timeBlocks.filter(block => block._id.toString() !== blockId)] *)
Definition withoutBlock (blockId : string) (blocks : list TimeBlock) : list TimeBlock :=
  filter (fun block => negb (String.eqb (_id block) blockId)) blocks.

Definition setTimeBlocks (s : Schedule) (blocks : list TimeBlock) : Schedule :=
  mkSchedule (scheduleId s) (userId s) (name s) (description s) (isActive s)
    blocks (recurring s) (exceptions s) (createdAt s) (updatedAt s).

Definition setIsActive (s : Schedule) (b : bool) : Schedule :=
  mkSchedule (scheduleId s) (userId s) (name s) (description s) b
    (timeBlocks s) (recurring s) (exceptions s) (createdAt s) (updatedAt s).

Definition setUpdatedAt (s : Schedule) (t : Z) : Schedule :=
  mkSchedule (scheduleId s) (userId s) (name s) (description s) (isActive s)
    (timeBlocks s) (recurring s) (exceptions s) (createdAt s) t.

(** ** The schema's validators and setters *)

(** [/^([0-1]?[0-9]|2[0-3]):[0-5][0-9]$/] *)
Definition digitUpTo (n : Z) (c : ascii) : bool :=
  match JS.digit c with Some d => d <=? n | None => false end.

Definition matchesTime (s : string) : bool :=
  match list_ascii_of_string s with
  | [h; colon; m1; m2] =>
      JS.isDigit h
      && Ascii.eqb colon ":" && digitUpTo 5 m1 && JS.isDigit m2
  | [h1; h2; colon; m1; m2] =>
      ((digitUpTo 1 h1 && JS.isDigit h2) || (Ascii.eqb h1 "2" && digitUpTo 3 h2))
      && Ascii.eqb colon ":" && digitUpTo 5 m1 && JS.isDigit m2
  | _ => false
  end.

(** The white space and line terminators that [String.prototype.trim]
    strips, among the code units below 256: U+0009 to U+000D, U+0020 and
    U+00A0. *)
Definition isSpace (c : ascii) : bool :=
  let n := Z.of_nat (nat_of_ascii c) in
  ((9 <=? n) && (n <=? 13)) || (n =? 32) || (n =? 160).

Fixpoint trimStart (s : string) : string :=
  match s with
  | EmptyString => EmptyString
  | String c rest => if isSpace c then trimStart rest else s
  end.

Fixpoint trimEnd (s : string) : string :=
  match s with
  | EmptyString => EmptyString
  | String c rest =>
      match trimEnd rest with
      | EmptyString => if isSpace c then EmptyString else String c EmptyString
      | kept => String c kept
      end
  end.

(** The [trim: true] setter. *)
Definition trim (s : string) : string := trimEnd (trimStart s).

Definition nonEmpty (s : string) : bool := negb (String.eqb s "").

(** The setters of a time block: [subject] and [notes] are trimmed. *)
Definition castTimeBlock (b : TimeBlock) : TimeBlock :=
  mkTimeBlock (_id b) (dayOfWeek b) (startTime b) (endTime b) (trim (subject b))
    (taskId b) (type b) (priority b) (option_map trim (notes b)).

(** The validators of one element of [timeBlocks]: [dayOfWeek] required with
    [min: 0, max: 6], the two times required and matching the pattern,
    [subject] required; [type] and [priority] are enumerations by type. *)
Definition validTimeBlock (b : TimeBlock) : bool :=
  (0 <=? dayOfWeek b) && (dayOfWeek b <=? 6)
  && matchesTime (startTime b) && matchesTime (endTime b)
  && nonEmpty (subject b).

Definition validException (e : ScheduleException) : bool :=
  nonEmpty (reason e)
  && forallb (fun m => matchesTime (mStartTime m) && matchesTime (mEndTime m))
       (modifiedTimeBlocks e).

Definition validRecurring (r : Recurring) : bool :=
  forallb (fun d => (0 <=? d) && (d <=? 6)) (daysOfWeek r).

(** What [validate()] checks of a whole document before it is written. *)
Definition validSchedule (s : Schedule) : bool :=
  nonEmpty (name s) && forallb validTimeBlock (timeBlocks s)
  && validRecurring (recurring s) && forallb validException (exceptions s).

(** ** The collection *)

Definition Db := list Schedule.

Definition isDoc (id user : ObjectId) (s : Schedule) : bool :=
  String.eqb (scheduleId s) id && String.eqb (userId s) user.

(** [Schedule.findOne({ _id: id, userId: user })], for the ObjectId that the
    [_id] of the query casts to (see [castObjectId] for the cast). *)
Definition findOne (db : Db) (id user : ObjectId) : option Schedule :=
  find (isDoc id user) db.

(** Writing back the document whose [_id] is that of [s]. *)
Definition store (db : Db) (s : Schedule) : Db :=
  map (fun old => if String.eqb (scheduleId old) (scheduleId s) then s else old) db.

(** [doc.save()] of a document read from the collection: the schema's
    validators, then the write with [updatedAt] refreshed
    ([timestamps: true]); a validation error is thrown and nothing is written.
    The validators are run on the whole document, which is what Mongoose does
    for a document that was valid when it was read. *)
Definition save (h : Host) (db : Db) (s : Schedule) : option (Db * Schedule) :=
  if validSchedule s
  then let saved := setUpdatedAt s (now h) in Some (store db saved, saved)
  else None.

(** [scheduleSchema.methods.addTimeBlock] *)
Definition addTimeBlock (h : Host) (db : Db) (s : Schedule) (timeBlock : TimeBlock)
  : option (Db * Schedule) :=
  save h db (setTimeBlocks s (timeBlocks s ++ [castTimeBlock timeBlock])).

(** [scheduleSchema.methods.removeTimeBlock] *)
Definition removeTimeBlock (h : Host) (db : Db) (s : Schedule) (blockId : string)
  : option (Db * Schedule) :=
  save h db (setTimeBlocks s (withoutBlock blockId (timeBlocks s))).

(** [scheduleSchema.methods.toggleActive] *)
Definition toggleActive (h : Host) (db : Db) (s : Schedule) : option (Db * Schedule) :=
  save h db (setIsActive s (negb (isActive s))).

(** ** The routes *)

Inductive Response :=
| Created (schedule : Schedule)          (* 201, the new document *)
| Ok (schedule : Schedule)               (* 200, the document *)
| Conflicts (hasConflicts : bool)        (* 200, { hasConflicts } *)
| BadRequest (errors : list string)      (* 400, { errors: errors.array() } *)
| Overlap (day : Z) (conflictingBlocks : TimeBlock * TimeBlock)
    (* 400, { message: `Time blocks overlap on day ${day}`, conflictingBlocks } *)
| NotFound                               (* 404, Schedule not found *)
| ServerError.                           (* 500, from the catch *)

(** 1 January 2000, 00:00, as a local time. *)
Definition newYear2000 : Z := 946684800000.

(** [new Date(`2000-01-01T${time}:00`).getTime()], a local date-time in the
    ECMAScript date-time string format. The format wants a two-digit hour:
    with [HH:mm] (and the hour and minute in range, or 24:00) the string is a
    date-time of 1 January 2000, local time, read as an instant by [UTC]
    (with the offset of the host on that day); with a one-digit hour, which
    the validators' pattern lets through, it does not conform and Node gives
    an Invalid Date. The handlers build no Date from a string the validators
    refuse. *)
Definition dateOfTime (h : Host) (time : string) : option Z :=
  match list_ascii_of_string time with
  | [h1; h2; colon; m1; m2] =>
      match JS.digit h1, JS.digit h2, JS.digit m1, JS.digit m2 with
      | Some a, Some b, Some c, Some d =>
          let hours := 10 * a + b in
          let minutes := 10 * c + d in
          if Ascii.eqb colon ":"
             && (((hours <=? 23) && (minutes <=? 59))
                 || ((hours =? 24) && (minutes =? 0)))
          then Some (UTC h (newYear2000 + hours * msPerHour + minutes * msPerMinute))
          else None
      | _, _, _, _ => None
      end
  | _ => None
  end.

(** The overlap validation of POST / and PUT /:id: the same grouping, sort
    and walk as [hasConflicts], on Dates built from the times. *)
Definition overlapIn (h : Host) (blocks : list TimeBlock)
  : option (Z * (TimeBlock * TimeBlock)) :=
  findOverlap (dateOfTime h) (groupByDay blocks).

Record RecurringBody := mkRecurringBody {
  bIsRecurring : bool;
  bFrequency : Frequency;
  bStartDate : option Z;  (* the date of the text when it is ISO 8601 *)
  bEndDate : option Z;
  bDaysOfWeek : list Z
}.

Record CreateBody := mkCreateBody {
  cName : string;
  cDescription : option string;
  cTimeBlocks : list TimeBlock;
  cRecurring : RecurringBody
}.

Record UpdateBody := mkUpdateBody {
  uName : option string;
  uDescription : option string;
  uIsActive : option bool;
  uTimeBlocks : option (list TimeBlock);
  uRecurring : option Recurring
}.

Definition check (ok : bool) (message : string) : list string :=
  if ok then [] else [message].

(** The four chains on the fields of a time block, one per wildcard. *)
Definition dayErrors (blocks : list TimeBlock) : list string :=
  flat_map (fun b => check ((0 <=? dayOfWeek b) && (dayOfWeek b <=? 6))
                       "Day of week must be 0-6") blocks.
Definition startErrors (blocks : list TimeBlock) : list string :=
  flat_map (fun b => check (matchesTime (startTime b))
                       "Start time must be in HH:MM format") blocks.
Definition endErrors (blocks : list TimeBlock) : list string :=
  flat_map (fun b => check (matchesTime (endTime b))
                       "End time must be in HH:MM format") blocks.
Definition subjectErrors (message : string) (blocks : list TimeBlock) : list string :=
  flat_map (fun b => check (nonEmpty (subject b)) message) blocks.

Definition atLeastOne (blocks : list TimeBlock) : bool :=
  match blocks with [] => false | _ :: _ => true end.

(** [validationResult(req).array()] of POST /api/schedules *)
Definition createErrors (body : CreateBody) : list string :=
  check (nonEmpty (cName body)) "Schedule name is required"
  ++ check (atLeastOne (cTimeBlocks body)) "At least one time block is required"
  ++ dayErrors (cTimeBlocks body)
  ++ startErrors (cTimeBlocks body)
  ++ endErrors (cTimeBlocks body)
  ++ subjectErrors "Subject is required for each time block" (cTimeBlocks body)
  ++ check (match bStartDate (cRecurring body) with Some _ => true | None => false end)
       "Start date must be a valid date".

(** [validationResult(req).array()] of PUT /api/schedules/:id: every chain
    is [optional()]. *)
Definition updateErrors (body : UpdateBody) : list string :=
  match uName body with
  | Some n => check (nonEmpty n) "Schedule name cannot be empty"
  | None => []
  end
  ++ match uTimeBlocks body with
     | Some blocks =>
         check (atLeastOne blocks) "At least one time block is required"
         ++ dayErrors blocks ++ startErrors blocks ++ endErrors blocks
         ++ subjectErrors "Subject is required for each time block" blocks
     | None => []
     end.

(** [validationResult(req).array()] of PUT /:id/time-blocks *)
Definition blockErrors (block : TimeBlock) : list string :=
  dayErrors [block] ++ startErrors [block] ++ endErrors [block]
  ++ subjectErrors "Subject is required" [block].

(** POST /api/schedules. [newId] is the ObjectId of the new document. *)
Definition postSchedule (h : Host) (db : Db) (user newId : ObjectId) (body : CreateBody)
  : Db * Response :=
  match createErrors body with
  | (_ :: _) as errors => (db, BadRequest errors)
  | [] =>
      match overlapIn h (cTimeBlocks body) with
      | Some (day, conflictingBlocks) => (db, Overlap day conflictingBlocks)
      | None =>
          match bStartDate (cRecurring body) with
          | Some start =>
              let r := cRecurring body in
              let schedule :=
                mkSchedule newId user (trim (cName body))
                  (option_map trim (cDescription body)) true
                  (map castTimeBlock (cTimeBlocks body))
                  (mkRecurring (bIsRecurring r) (bFrequency r) start (bEndDate r)
                     (bDaysOfWeek r))
                  [] (now h) (now h) in
              if validSchedule schedule
              then (db ++ [schedule], Created schedule)
              else (db, ServerError)
          | None => (db, ServerError)
          end
      end
  end.

Definition orElse {A : Type} (o : option A) (d : A) : A :=
  match o with Some a => a | None => d end.

(** [{ $set: req.body }] on a document. *)
Definition applySet (h : Host) (s : Schedule) (body : UpdateBody) : Schedule :=
  mkSchedule (scheduleId s) (userId s)
    (orElse (option_map trim (uName body)) (name s))
    (match uDescription body with
     | Some d => Some (trim d)
     | None => description s
     end)
    (orElse (uIsActive body) (isActive s))
    (orElse (option_map (map castTimeBlock) (uTimeBlocks body)) (timeBlocks s))
    (orElse (uRecurring body) (recurring s))
    (exceptions s) (createdAt s) (now h).

(** [runValidators: true]: the validators of the paths the update sets. *)
Definition validSet (body : UpdateBody) : bool :=
  match uName body with Some n => nonEmpty (trim n) | None => true end
  && match uTimeBlocks body with
     | Some blocks => forallb validTimeBlock (map castTimeBlock blocks)
     | None => true
     end
  && match uRecurring body with Some r => validRecurring r | None => true end.

(** PUT /api/schedules/:id *)
Definition putSchedule (h : Host) (db : Db) (user id : ObjectId) (body : UpdateBody)
  : Db * Response :=
  match updateErrors body with
  | (_ :: _) as errors => (db, BadRequest errors)
  | [] =>
      match findOne db id user with
      | None => (db, NotFound)
      | Some schedule =>
          match
            match uTimeBlocks body with
            | Some blocks => overlapIn h blocks
            | None => None
            end
          with
          | Some (day, conflictingBlocks) => (db, Overlap day conflictingBlocks)
          | None =>
              if validSet body
              then let updatedSchedule := applySet h schedule body in
                   (store db updatedSchedule, Ok updatedSchedule)
              else (db, ServerError)
          end
      end
  end.

(** The shape of the three handlers that read a document and call one of
    its methods. *)
Definition withSchedule (db : Db) (user id : ObjectId)
    (method : Schedule -> option (Db * Schedule)) : Db * Response :=
  match findOne db id user with
  | None => (db, NotFound)
  | Some schedule =>
      match method schedule with
      | Some (db', saved) => (db', Ok saved)
      | None => (db, ServerError)
      end
  end.

(** PUT /api/schedules/:id/toggle *)
Definition putToggle (h : Host) (db : Db) (user id : ObjectId) : Db * Response :=
  withSchedule db user id (toggleActive h db).

(** PUT /api/schedules/:id/time-blocks *)
Definition putTimeBlock (h : Host) (db : Db) (user id : ObjectId) (body : TimeBlock)
  : Db * Response :=
  match blockErrors body with
  | (_ :: _) as errors => (db, BadRequest errors)
  | [] => withSchedule db user id (fun schedule => addTimeBlock h db schedule body)
  end.

(** DELETE /api/schedules/:id/time-blocks/:blockId *)
Definition deleteTimeBlock (h : Host) (db : Db) (user id : ObjectId) (blockId : string)
  : Db * Response :=
  withSchedule db user id (fun schedule => removeTimeBlock h db schedule blockId).

(** GET /api/schedules/:id/conflicts *)
Definition getConflicts (h : Host) (db : Db) (user id : ObjectId) : Db * Response :=
  match findOne db id user with
  | None => (db, NotFound)
  | Some schedule => (db, Conflicts (hasConflicts h schedule))
  end.

(** ** Occurrence projection *)

Module Projection.

(** Modelled from the spec: calendar dates, which the repository only
    stores. Days since 1 January 1970 of a civil date (proleptic Gregorian). *)
Definition daysFromCivil (y m d : Z) : Z :=
  let y' := if m <=? 2 then y - 1 else y in
  let era := y' / 400 in
  let yoe := y' - era * 400 in
  let mp := (m + 9) mod 12 in
  let doy := (153 * mp + 2) / 5 + d - 1 in
  let doe := yoe * 365 + yoe / 4 - yoe / 100 + doy in
  era * 146097 + doe - 719468.

(** Modelled from the spec: the time value of midnight UTC of a civil date,
    as a stored [Date]. *)
Definition dateOfCivil (y m d : Z) : Z := daysFromCivil y m d * msPerDay.

(** Modelled from the spec: the calendar day of a stored [Date]. *)
Definition dayOf (t : Z) : Z := t / msPerDay.

(** Modelled from the spec: the weekday of a calendar day, 0 for Sunday as
    [dayOfWeek] has it. *)
Definition weekdayOf (day : Z) : Z := (day + 4) mod 7.

(** Modelled from the spec: the blocks of an occurrence, the schedule's own
    blocks of that weekday or the replacement list of a [modify] exception. *)
Inductive EffectiveBlocks :=
| Normal (blocks : list TimeBlock)
| Substituted (blocks : list ModifiedTimeBlock).

(** Modelled from the spec: an occurrence, a date with its effective blocks. *)
Record Occurrence := mkOccurrence {
  onDay : Z;
  effective : EffectiveBlocks
}.

Section Project.
(** The spec does not say which dates a monthly rule allows: the choice
    is left open, as a test on the start day and the candidate day. *)
Variable monthlyAllows : Z -> Z -> bool.

(** Modelled from the spec: the candidate dates of [projectOccurrences],
    an operation the spec introduces and the repository does not contain
    (the model and the routes only store [recurring] and [exceptions]). A
    date is a candidate when it lies in [[startDate, endDate]] ([endDate]
    absent: no upper end) and the frequency allows it: every day for
    [daily]; for [weekly] the weekdays of [daysOfWeek] when it is given,
    every weekday otherwise. *)
Definition candidate (r : Recurring) (day : Z) : bool :=
  (dayOf (startDate r) <=? day)
  && match endDate r with Some e => day <=? dayOf e | None => true end
  && match frequency r with
     | daily => true
     | weekly =>
         match daysOfWeek r with
         | [] => true
         | days => existsb (Z.eqb (weekdayOf day)) days
         end
     | monthly => monthlyAllows (dayOf (startDate r)) day
     end.

(** Modelled from the spec: the exception of that exact date, if any. *)
Definition exceptionOn (s : Schedule) (day : Z) : option ScheduleException :=
  find (fun e => dayOf (date e) =? day) (exceptions s).

(** Modelled from the spec: what [projectOccurrences] emits for one
    candidate date: nothing under a [skip] exception, the date with
    [modifiedTimeBlocks] under a [modify] exception, otherwise the date with
    the schedule's blocks filtered to the weekday. *)
Definition occurrenceOn (s : Schedule) (day : Z) : option Occurrence :=
  if candidate (recurring s) day then
    match exceptionOn s day with
    | Some e =>
        match action e with
        | skip => None
        | modify => Some (mkOccurrence day (Substituted (modifiedTimeBlocks e)))
        end
    | None =>
        Some (mkOccurrence day
                (Normal (filter (fun b => dayOfWeek b =? weekdayOf day) (timeBlocks s))))
    end
  else None.

(** Modelled from the spec: the days of the range [[from, to]], in order. *)
Definition daysOfRange (from to : Z) : list Z :=
  map (fun i => from + Z.of_nat i) (seq 0 (Z.to_nat (to - from + 1))).

(** Modelled from the spec: [projectOccurrences(schedule, dateRange)], the
    finite sequence of the occurrences of the days of the range; the
    repository has no such function. *)
Definition projectOccurrences (s : Schedule) (from to : Z) : list Occurrence :=
  flat_map (fun day => match occurrenceOn s day with
                       | Some o => [o]
                       | None => []
                       end)
           (daysOfRange from to).
End Project.

End Projection.

(** ** The vocabulary of the specification *)

Section Intervals.
Variable timeOf : string -> option Z.

(** [startTime < endTime], for the times as [timeOf] reads them. *)
Definition startsBeforeEnd (b : TimeBlock) : bool :=
  JS.lt (timeOf (startTime b)) (timeOf (endTime b)).

(** The open intervals of two blocks overlap: each starts strictly before
    the other ends. *)
Definition intervalsOverlap (a b : TimeBlock) : bool :=
  JS.lt (timeOf (startTime a)) (timeOf (endTime b))
  && JS.lt (timeOf (startTime b)) (timeOf (endTime a)).

(** [a] starts no later than [b], both starts being times. *)
Definition startsNoLater (a b : TimeBlock) : Prop :=
  match timeOf (startTime a), timeOf (startTime b) with
  | Some x, Some y => x <= y
  | _, _ => False
  end.

(** The start of [b] is a time, not NaN. *)
Definition hasStart (b : TimeBlock) : Prop := timeOf (startTime b) <> None.

(** [a] ends after [b] starts: the test of the walk. *)
Definition endsAfterStart (a b : TimeBlock) : Prop :=
  JS.gt (timeOf (endTime a)) (timeOf (startTime b)) = true.

(** Two blocks of the same day whose intervals overlap. *)
Definition inConflict (a b : TimeBlock) : bool :=
  (dayOfWeek a =? dayOfWeek b) && intervalsOverlap a b.
End Intervals.

Definition isDay (d : Z) (b : TimeBlock) : bool := dayOfWeek b =? d.

(** What [blocksByDay] holds once the blocks [seen] have gone through the
    loop: one key for each day seen, with the blocks of that day in the
    order of the list. *)
Definition Grouped (seen : list TimeBlock) (m : BlocksByDay) : Prop :=
  NoDup (map fst m)
  /\ (forall d bs, In (d, bs) m -> bs = filter (isDay d) seen)
  /\ (forall b, In b seen -> In (dayOfWeek b) (map fst m)).

(** There are two distinct positions of [l] whose elements are related. *)
Definition TwoDistinct {A : Type} (R : A -> A -> Prop) (l : list A) : Prop :=
  exists i j a b,
    i <> j /\ nth_error l i = Some a /\ nth_error l j = Some b /\ R a b.

(** An element of the list and a later one are related. *)
Inductive PairIn {A : Type} (R : A -> A -> Prop) : list A -> Prop :=
| pair_here a b l : In b l -> R a b -> PairIn R (a :: l)
| pair_later a l : PairIn R l -> PairIn R (a :: l).

(** A schedule has a conflicting pair of blocks. *)
Definition ConflictingPair (timeOf : string -> option Z) (blocks : list TimeBlock) : Prop :=
  TwoDistinct (fun a b => inConflict timeOf a b = true) blocks.

(** ** The scenarios of the specification *)

Module Scenario.

(** A server on UTC, asked on 1 January 2024 at 10:00. *)
Definition host : Host := fixedOffset 1704103200000 0.

(** A server in New York asked at noon on Sunday 10 March 2024, the day the
    clocks went from 02:00 to 03:00 (at 07:00 UTC): five hours behind UTC
    before the change, four after it. Local times from 02:00 to 03:00 do not
    exist on that day and are read with the offset before the change. (Only
    this change of the zone is written out.) *)
Definition newYork : Host :=
  mkHost 1710086400000
    (fun t isUTC =>
       if isUTC
       then if t <? 1710054000000 then -300 else -240
       else if t <? 1710039600000 then -300 else -240).

Definition block (id : ObjectId) (day : Z) (from to : string) : TimeBlock :=
  mkTimeBlock id day from to "Math" None study medium None.

Definition weeklyFrom2024 : RecurringBody :=
  mkRecurringBody true weekly (Some (Projection.dateOfCivil 2024 1 1)) None [].

Definition createBody (blocks : list TimeBlock) : CreateBody :=
  mkCreateBody "Week" None blocks weeklyFrom2024.

Definition updateBlocks (blocks : list TimeBlock) : UpdateBody :=
  mkUpdateBody None None None (Some blocks) None.

(** Two Monday blocks, 09:00-10:00 and 09:30-10:30. *)
Definition overlapping : list TimeBlock :=
  [block "b1" 1 "09:00" "10:00"; block "b2" 1 "09:30" "10:30"].

(** Two Monday blocks, 09:00-10:00 and 10:00-11:00. *)
Definition backToBack : list TimeBlock :=
  [block "b1" 1 "09:00" "10:00"; block "b2" 1 "10:00" "11:00"].

(** The overlapping blocks again, the hours written with one digit. *)
Definition overlappingOneDigit : list TimeBlock :=
  [block "b1" 1 "9:00" "10:00"; block "b2" 1 "9:30" "10:30"].

(** A block that ends before it starts and one of no duration. *)
Definition reversed : list TimeBlock :=
  [block "b1" 1 "10:00" "09:00"; block "b2" 2 "12:00" "12:00"].

(** Two Sunday blocks half an hour apart, 02:30-03:00 and 03:30-04:00. *)
Definition early : TimeBlock := block "b1" 0 "02:30" "03:00".
Definition late : TimeBlock := block "b2" 0 "03:30" "04:00".

(** The stored schedule "s1" of user "u1" with the given blocks. *)
Definition stored (blocks : list TimeBlock) : Schedule :=
  mkSchedule "s1" "u1" "Week" None true blocks
    (mkRecurring true weekly (Projection.dateOfCivil 2024 1 1) None []) [] 0 0.

(** The weekly schedule that starts on Monday 1 January 2024 with one study
    block on day 1, 09:00-10:00, and the given exceptions. *)
Definition mondayStudy : TimeBlock := block "b1" 1 "09:00" "10:00".

Definition weeklySchedule (exceptions : list ScheduleException) : Schedule :=
  mkSchedule "s1" "u1" "Week" None true [mondayStudy]
    (mkRecurring true weekly (Projection.dateOfCivil 2024 1 1) None []) exceptions 0 0.

Definition skipJan8 : ScheduleException :=
  mkScheduleException (Projection.dateOfCivil 2024 1 8) "holiday" skip [].

Definition makeup : list ModifiedTimeBlock :=
  [mkModifiedTimeBlock "09:30" "11:00" "Makeup" study].

Definition modifyJan8 : ScheduleException :=
  mkScheduleException (Projection.dateOfCivil 2024 1 8) "makeup" modify makeup.

End Scenario.

(** ** More of the vocabulary *)

(** One for a test that passes, nothing otherwise. *)
Definition one (b : bool) : nat := if b then 1%nat else 0%nat.

(** Two readings of the clock give the same times for the start and the end
    of [b]. *)
Definition agreeOn (timeOf timeOf' : string -> option Z) (b : TimeBlock) : Prop :=
  timeOf' (startTime b) = timeOf (startTime b)
  /\ timeOf' (endTime b) = timeOf (endTime b).

(** ** The other virtual of the schedule *)

(** [a + b] on numbers, NaN absorbing. *)
Definition numAdd (a b : option Z) : option Z :=
  match a, b with
  | Some x, Some y => Some (x + y)
  | _, _ => None
  end.

(** [a / (1000 * 60)] on a number of milliseconds. The quotient is taken on
    whole minutes: the only use divides the distance of two [parseTime], a
    multiple of a minute for every pair of times and every host (see
    [parseTime_distance_whole_minutes]). *)
Definition numMinutes (a : option Z) : option Z :=
  option_map (fun ms => ms / (1000 * 60)) a.

Definition isStudy (b : TimeBlock) : bool :=
  match type b with study => true | _ => false end.

(** [scheduleSchema.virtual('weeklyStudyTime')]: [filter] on the type, then
    [reduce] from 0 with the duration in minutes of each block. *)
Definition weeklyStudyTime (h : Host) (s : Schedule) : option Z :=
  fold_left
    (fun total block =>
       let start := parseTime h (startTime block) in
       let end_ := parseTime h (endTime block) in
       let duration := numMinutes (JS.sub end_ start) in
       numAdd total duration)
    (filter isStudy (timeBlocks s)) (Some 0).

(** The minute of the day that a time names: 60 times the hour plus the
    minute, as [parseTime] reads them. *)
Definition minuteOfDay (timeString : string) : option Z :=
  match map JS.Number (JS.split ":" timeString) with
  | Some hours :: Some minutes :: _ => Some (60 * hours + minutes)
  | _ => None
  end.

(** The time of day that a time names, in milliseconds since midnight. *)
Definition timeOfDay (timeString : string) : option Z :=
  option_map (fun m => m * msPerMinute) (minuteOfDay timeString).

(** The offset of the host does not change over the local day that starts
    at the local time [midnight]: every minute of that day is read with
    [minutes]. *)
Definition steadyDay (h : Host) (midnight minutes : Z) : Prop :=
  forall m, 0 <= m < 1440 ->
            offsetMinutes h (midnight + m * msPerMinute) false = minutes.

(** The minutes from the start to the end of each block, added up. *)
Fixpoint minutesOf (blocks : list TimeBlock) : option Z :=
  match blocks with
  | [] => Some 0
  | b :: rest =>
      numAdd (JS.sub (minuteOfDay (endTime b)) (minuteOfDay (startTime b)))
        (minutesOf rest)
  end.

(** ** The other routes of the schedules router *)






(** GET /api/schedules/:id *)
Definition getSchedule (db : Db) (user id : ObjectId) : Db * Response :=
  match findOne db id user with
  | None => (db, NotFound)
  | Some schedule => (db, Ok schedule)
  end.

Inductive Deletion :=
| Deleted             (* 200, Schedule deleted successfully *)
| NothingToDelete.    (* 404, Schedule not found *)

(** The collection without the first document that [matches]. *)
Fixpoint withoutFirst (matches : Schedule -> bool) (db : Db) : Db :=
  match db with
  | [] => []
  | s :: rest => if matches s then rest else s :: withoutFirst matches rest
  end.

(** DELETE /api/schedules/:id: [findOneAndDelete({ _id, userId })]. *)
Definition deleteSchedule (db : Db) (user id : ObjectId) : Db * Deletion :=
  match findOne db id user with
  | None => (db, NothingToDelete)
  | Some _ => (withoutFirst (isDoc id user) db, Deleted)
  end.

(** ** The [:id] of the path, as a text *)

Definition isHexDigit (c : ascii) : bool :=
  let n := Z.of_nat (nat_of_ascii c) in
  ((48 <=? n) && (n <=? 57)) || ((65 <=? n) && (n <=? 70))
  || ((97 <=? n) && (n <=? 102)).

Definition lowerHexDigit (c : ascii) : ascii :=
  let n := Z.of_nat (nat_of_ascii c) in
  if (65 <=? n) && (n <=? 70) then ascii_of_nat (nat_of_ascii c + 32) else c.

(** The cast of the [_id] of a query: a text of 24 hexadecimal digits is the
    ObjectId of these digits, whatever the case of the letters; for any
    other text [new ObjectId(text)] throws and the query is rejected with a
    CastError. (bson before version 6 also takes a text of 12 characters, for
    the ObjectId of its 12 bytes; the statements on texts that are refused
    leave that length out.) *)
Definition castObjectId (text : string) : option ObjectId :=
  if Nat.eqb (String.length text) 24
     && forallb isHexDigit (list_ascii_of_string text)
  then Some (string_of_list_ascii (map lowerHexDigit (list_ascii_of_string text)))
  else None.

(** A handler whose first query is on [_id: req.params.id]: the CastError
    lands in the [catch], which answers 500. *)
Definition withId (db : Db) (idText : string) (handler : ObjectId -> Db * Response)
  : Db * Response :=
  match castObjectId idText with
  | Some id => handler id
  | None => (db, ServerError)
  end.

(** GET /api/schedules/:id *)
Definition getScheduleAt (db : Db) (user : ObjectId) (idText : string)
  : Db * Response :=
  withId db idText (getSchedule db user).

(** PUT /api/schedules/:id: the validation errors are answered before the
    query. *)
Definition putScheduleAt (h : Host) (db : Db) (user : ObjectId) (idText : string)
    (body : UpdateBody) : Db * Response :=
  match updateErrors body with
  | (_ :: _) as errors => (db, BadRequest errors)
  | [] => withId db idText (fun id => putSchedule h db user id body)
  end.

(** PUT /api/schedules/:id/toggle *)
Definition putToggleAt (h : Host) (db : Db) (user : ObjectId) (idText : string)
  : Db * Response :=
  withId db idText (putToggle h db user).

(** PUT /api/schedules/:id/time-blocks *)
Definition putTimeBlockAt (h : Host) (db : Db) (user : ObjectId) (idText : string)
    (body : TimeBlock) : Db * Response :=
  match blockErrors body with
  | (_ :: _) as errors => (db, BadRequest errors)
  | [] => withId db idText (fun id => putTimeBlock h db user id body)
  end.

(** DELETE /api/schedules/:id/time-blocks/:blockId *)
Definition deleteTimeBlockAt (h : Host) (db : Db) (user : ObjectId)
    (idText blockId : string) : Db * Response :=
  withId db idText (fun id => deleteTimeBlock h db user id blockId).

(** GET /api/schedules/:id/conflicts *)
Definition getConflictsAt (h : Host) (db : Db) (user : ObjectId) (idText : string)
  : Db * Response :=
  withId db idText (getConflicts h db user).

(** ** Numbers in template strings *)

(** The decimal digits of a natural number, most significant first; [fuel]
    bounds their number. *)
Fixpoint digitsOf (fuel : nat) (n : Z) (shown : string) : string :=
  match fuel with
  | O => shown
  | S fuel' =>
      let shown' := String (ascii_of_nat (48 + Z.to_nat (n mod 10))) shown in
      if n <? 10 then shown' else digitsOf fuel' (n / 10) shown'
  end.

(** [`${n}`] for an integer [n] (below 10^21 in size, where JavaScript still
    writes all the digits). *)
Definition showNumber (n : Z) : string :=
  if n <? 0
  then String "-" (digitsOf (S (Z.to_nat (Z.log2 (- n)))) (- n) "")
  else digitsOf (S (Z.to_nat (Z.log2 n))) n "".

(** ** Tasks (taskSchema, ITask, and PUT /api/tasks/:id/status) *)

Module Tasks.

Inductive Status := pending | inProgress | completed.

(** Durations are whole minutes, as the validators of the routes that
    create a task ask of [estimatedDuration]. *)
Record Task := mkTask {
  taskId : ObjectId;
  userId : ObjectId;
  title : string;
  description : option string;
  subject : string;
  priority : Priority;
  status : Status;
  dueDate : Z;
  estimatedDuration : Z;
  actualDuration : option Z;
  tags : list string;
  attachments : list string;
  notes : option string;
  createdAt : Z;
  updatedAt : Z
}.

(** [${hours}h ${minutes}m] or [${minutes}m], with
    [hours = Math.floor(d / 60)] and [minutes = d % 60] (the remainder has the
    sign of [d]). *)
Definition formatDuration (d : Z) : string :=
  let hours := d / 60 in
  let minutes := Z.rem d 60 in
  if 0 <? hours
  then showNumber hours ++ "h " ++ showNumber minutes ++ "m"
  else showNumber minutes ++ "m".

(** [taskSchema.virtual('formattedEstimatedDuration')] *)
Definition formattedEstimatedDuration (t : Task) : string :=
  formatDuration (estimatedDuration t).



Definition isCompleted (st : Status) : bool :=
  match st with completed => true | _ => false end.

(** [taskSchema.virtual('isOverdue')] *)
Definition isOverdue (h : Host) (t : Task) : bool :=
  negb (isCompleted (status t)) && (dueDate t <? now h).


Definition TaskDb := list Task.

(** [Task.findOne({ _id: id, userId: user })] *)
Definition findOne (db : TaskDb) (id user : ObjectId) : option Task :=
  find (fun t => String.eqb (taskId t) id && String.eqb (userId t) user) db.

Definition store (db : TaskDb) (t : Task) : TaskDb :=
  map (fun old => if String.eqb (taskId old) (taskId t) then t else old) db.

Definition withStatus (t : Task) (st : Status) (actual : option Z) (at_ : Z) : Task :=
  mkTask (taskId t) (userId t) (title t) (description t) (subject t) (priority t)
    st (dueDate t) (estimatedDuration t) actual (tags t) (attachments t) (notes t)
    (createdAt t) at_.


Inductive Answer :=
| Ok (task : Task)                  (* 200, the task *)
| BadRequest (errors : list string) (* 400, { errors } *)
| NotFound                          (* 404, Task not found *)
| ServerError.                      (* 500 *)


End Tasks.

(** ** Study sessions (studySessionSchema and the study-sessions router) *)

Module Sessions.

Inductive Status := active | paused | completed | interrupted.

Record Break := mkBreak {
  breakStart : Z;     (* startTime *)
  breakEnd : Z;       (* endTime *)
  breakMinutes : Z    (* duration *)
}.

Record StudySession := mkStudySession {
  sessionId : ObjectId;
  userId : ObjectId;
  taskId : option ObjectId;
  subject : string;
  startTime : Z;
  endTime : option Z;
  duration : Z;
  status : Status;
  breaks : list Break;
  notes : option string;
  productivity : Z;
  distractions : list string;
  createdAt : Z;
  updatedAt : Z
}.

(** [studySessionSchema.virtual('totalBreakTime')] *)
Definition totalBreakTime (s : StudySession) : Z :=
  fold_left (fun total b => total + breakMinutes b) (breaks s) 0.

(** [studySessionSchema.virtual('netStudyTime')] *)
Definition netStudyTime (s : StudySession) : Z := duration s - totalBreakTime s.

(** The validators of the schema: [subject] required, [duration] with
    [min: 1], the duration of a break with [min: 0], [productivity] between 1
    and 10. *)
Definition validSession (s : StudySession) : bool :=
  nonEmpty (subject s) && (1 <=? duration s)
  && forallb (fun b => 0 <=? breakMinutes b) (breaks s)
  && (1 <=? productivity s) && (productivity s <=? 10).

Definition SessionDb := list StudySession.

Definition store (db : SessionDb) (s : StudySession) : SessionDb :=
  map (fun old => if String.eqb (sessionId old) (sessionId s) then s else old) db.

(** [doc.save()]: the validators, then the write with [updatedAt]
    refreshed. *)
Definition touch (s : StudySession) (at_ : Z) : StudySession :=
  mkStudySession (sessionId s) (userId s) (taskId s) (subject s) (startTime s)
    (endTime s) (duration s) (status s) (breaks s) (notes s) (productivity s)
    (distractions s) (createdAt s) at_.

Definition save (h : Host) (db : SessionDb) (s : StudySession)
  : option (SessionDb * StudySession) :=
  if validSession s
  then Some (store db (touch s (now h)), touch s (now h))
  else None.

Definition withStatus (s : StudySession) (st : Status) (ended : option Z)
  : StudySession :=
  mkStudySession (sessionId s) (userId s) (taskId s) (subject s) (startTime s)
    ended (duration s) st (breaks s) (notes s) (productivity s)
    (distractions s) (createdAt s) (updatedAt s).

Definition withBreaks (s : StudySession) (bs : list Break) : StudySession :=
  mkStudySession (sessionId s) (userId s) (taskId s) (subject s) (startTime s)
    (endTime s) (duration s) (status s) bs (notes s) (productivity s)
    (distractions s) (createdAt s) (updatedAt s).

(** [studySessionSchema.methods.pauseSession] *)
Definition pauseSession (h : Host) (db : SessionDb) (s : StudySession) :=
  save h db (withStatus s paused (endTime s)).

(** [studySessionSchema.methods.resumeSession] *)
Definition resumeSession (h : Host) (db : SessionDb) (s : StudySession) :=
  save h db (withStatus s active (endTime s)).

(** [studySessionSchema.methods.completeSession] *)
Definition completeSession (h : Host) (db : SessionDb) (s : StudySession) :=
  save h db (withStatus s completed (Some (now h))).

(** [Math.round(ms / (1000 * 60))] for a whole number of milliseconds:
    the nearest minute, a half going up. *)
Definition roundMinutes (ms : Z) : Z := (ms + 30000) / 60000.

(** [studySessionSchema.methods.addBreak] *)
Definition addBreak (h : Host) (db : SessionDb) (s : StudySession)
    (breakFrom breakTo : Z) :=
  save h db
    (withBreaks s
       (breaks s ++ [mkBreak breakFrom breakTo (roundMinutes (breakTo - breakFrom))])).

Inductive Answer :=
| Started (session : StudySession)        (* 201, the new session *)
| Ok (session : StudySession)             (* 200, the session *)
| AlreadyActive (session : StudySession)  (* 400, with the active session *)
| BadRequest (errors : list string)       (* 400, { errors } *)
| NotFound                                (* 404 *)
| ServerError.                            (* 500 *)

Definition isOpen (s : StudySession) : bool :=
  match status s with active | paused => true | _ => false end.

Definition isActive (s : StudySession) : bool :=
  match status s with active => true | _ => false end.

Definition isPaused (s : StudySession) : bool :=
  match status s with paused => true | _ => false end.

(** [StudySession.findOne({ userId, status: { $in: ['active', 'paused'] } })] *)
Definition findOpen (db : SessionDb) (user : ObjectId) : option StudySession :=
  find (fun s => String.eqb (userId s) user && isOpen s) db.

(** [StudySession.findOne({ _id, userId, status... })], the status being
    the test [wanted]. *)
Definition findOne (db : SessionDb) (id user : ObjectId)
    (wanted : StudySession -> bool) : option StudySession :=
  find (fun s => String.eqb (sessionId s) id && String.eqb (userId s) user
                 && wanted s) db.

Definition isHex (c : ascii) : bool :=
  let n := Z.of_nat (nat_of_ascii c) in
  ((48 <=? n) && (n <=? 57)) || ((65 <=? n) && (n <=? 70))
  || ((97 <=? n) && (n <=? 102)).

(** [isMongoId()]: 24 hexadecimal digits. *)
Definition isMongoId (text : string) : bool :=
  Nat.eqb (String.length text) 24 && forallb isHex (list_ascii_of_string text).

Record StartBody := mkStartBody {
  sSubject : string;
  sDuration : option Z;        (* the integer of the text, when it is one *)
  sTaskId : option string
}.

(** [validationResult(req).array()] of POST /api/study-sessions *)
Definition startErrors (body : StartBody) : list string :=
  check (nonEmpty (sSubject body)) "Subject is required"
  ++ check (match sDuration body with Some d => 1 <=? d | None => false end)
       "Duration must be at least 1 minute"
  ++ match sTaskId body with
     | Some text => check (isMongoId text) "Invalid task ID"
     | None => []
     end.

(** POST /api/study-sessions. [newId] is the ObjectId of the new document;
    [productivity] takes the default of the schema. *)
Definition postSession (h : Host) (db : SessionDb) (user newId : ObjectId)
    (body : StartBody) : SessionDb * Answer :=
  match startErrors body with
  | (_ :: _) as errors => (db, BadRequest errors)
  | [] =>
      match findOpen db user with
      | Some activeSession => (db, AlreadyActive activeSession)
      | None =>
          match sDuration body with
          | Some minutes =>
              let studySession :=
                mkStudySession newId user (sTaskId body) (trim (sSubject body))
                  (now h) None minutes active [] None 5 [] (now h) (now h) in
              if validSession studySession
              then (db ++ [studySession], Started studySession)
              else (db, ServerError)
          | None => (db, ServerError)
          end
      end
  end.

(** GET /api/study-sessions/active *)
Definition getActive (db : SessionDb) (user : ObjectId) : SessionDb * Answer :=
  match findOpen db user with
  | Some activeSession => (db, Ok activeSession)
  | None => (db, NotFound)
  end.

Definition withSession (db : SessionDb) (found : option StudySession)
    (method : StudySession -> option (SessionDb * StudySession))
  : SessionDb * Answer :=
  match found with
  | None => (db, NotFound)
  | Some studySession =>
      match method studySession with
      | Some (db', saved) => (db', Ok saved)
      | None => (db, ServerError)
      end
  end.

(** PUT /api/study-sessions/:id/pause *)
Definition putPause (h : Host) (db : SessionDb) (user id : ObjectId)
  : SessionDb * Answer :=
  withSession db (findOne db id user isActive) (pauseSession h db).

(** PUT /api/study-sessions/:id/resume *)
Definition putResume (h : Host) (db : SessionDb) (user id : ObjectId)
  : SessionDb * Answer :=
  withSession db (findOne db id user isPaused) (resumeSession h db).

Record CompleteBody := mkCompleteBody {
  cProductivity : option Z;
  cNotes : option string;
  cDistractions : option (list string)
}.

(** [validationResult(req).array()] of PUT /:id/complete, for a body whose
    [notes] is a string and whose [distractions] is an array when present. *)
Definition completeErrors (body : CompleteBody) : list string :=
  match cProductivity body with
  | Some p => check ((1 <=? p) && (p <=? 10)) "Productivity must be between 1 and 10"
  | None => []
  end.

Definition withDetails (s : StudySession) (body : CompleteBody) : StudySession :=
  mkStudySession (sessionId s) (userId s) (taskId s) (subject s) (startTime s)
    (endTime s) (duration s) (status s) (breaks s)
    (match cNotes body with Some n => Some (trim n) | None => notes s end)
    (orElse (cProductivity body) (productivity s))
    (orElse (option_map (map trim) (cDistractions body)) (distractions s))
    (createdAt s) (updatedAt s).

(** PUT /api/study-sessions/:id/complete. The statistics of the user are
    in another collection: whether [user.updateStudyStats] goes through
    ([statsWritten], also true when there is no such user) is given. It runs
    after the session is saved, so a failure there answers 500 with the
    session completed. *)
Definition putComplete (h : Host) (db : SessionDb) (user id : ObjectId)
    (body : CompleteBody) (statsWritten : bool) : SessionDb * Answer :=
  match completeErrors body with
  | (_ :: _) as errors => (db, BadRequest errors)
  | [] =>
      match findOne db id user isOpen with
      | None => (db, NotFound)
      | Some studySession =>
          match completeSession h db (withDetails studySession body) with
          | Some (db', saved) =>
              if statsWritten then (db', Ok saved) else (db', ServerError)
          | None => (db, ServerError)
          end
      end
  end.

(** PUT /api/study-sessions/:id/break. The two dates of the body are the
    time values of their texts, or [None] for a text that is not ISO 8601. *)
Definition putBreak (h : Host) (db : SessionDb) (user id : ObjectId)
    (breakFrom breakTo : option Z) : SessionDb * Answer :=
  match
    check (match breakFrom with Some _ => true | None => false end)
      "Start time must be a valid date"
    ++ check (match breakTo with Some _ => true | None => false end)
         "End time must be a valid date"
  with
  | (_ :: _) as errors => (db, BadRequest errors)
  | [] =>
      match breakFrom, breakTo with
      | Some from, Some to =>
          withSession db (findOne db id user (fun _ => true))
            (fun studySession => addBreak h db studySession from to)
      | _, _ => (db, ServerError)
      end
  end.

(** The requests that change the collection, and the router on them. *)
Inductive Request :=
| Start (user newId : ObjectId) (body : StartBody)
| Pause (user id : ObjectId)
| Resume (user id : ObjectId)
| Complete (user id : ObjectId) (body : CompleteBody) (statsWritten : bool)
| AddBreak (user id : ObjectId) (breakFrom breakTo : option Z).

Definition handle (h : Host) (db : SessionDb) (request : Request)
  : SessionDb * Answer :=
  match request with
  | Start user newId body => postSession h db user newId body
  | Pause user id => putPause h db user id
  | Resume user id => putResume h db user id
  | Complete user id body statsWritten => putComplete h db user id body statsWritten
  | AddBreak user id breakFrom breakTo => putBreak h db user id breakFrom breakTo
  end.

(** The sessions of [user] that are active or paused. *)
Definition openOf (user : ObjectId) (db : SessionDb) : list StudySession :=
  filter (fun s => String.eqb (userId s) user && isOpen s) db.

(** Distinct [_id]s, and for every user at most one session that is active
    or paused. *)
Definition OneOpenEach (db : SessionDb) : Prop :=
  NoDup (map sessionId db)
  /\ forall user, (List.length (openOf user db) <= 1)%nat.

(** The [_id] of a new document is not in the collection. *)
Definition freshFor (db : SessionDb) (request : Request) : Prop :=
  match request with
  | Start _ newId _ => ~ In newId (map sessionId db)
  | _ => True
  end.

End Sessions.

(** * The route tables of the tasks and study-sessions routers

    [express.Router()] with its defaults: a request goes to the first route,
    in the order of registration, whose method and path match; none of
    these routes passes the request on ([auth] answers 401 itself, the
    handlers always answer).  A path is read as its segments between the
    slashes; [:name] matches one segment that is not empty, a word matches
    itself with the case of its letters ignored, and a [get] route also
    takes HEAD. *)

Module Routing.

Inductive Method := GET | HEAD | POST | PUT | DELETE.

Inductive Segment :=
| Lit (word : string)
| Param (name : string).

Definition lower (c : ascii) : ascii :=
  let n := N_of_ascii c in
  if ((65 <=? n) && (n <=? 90))%N then ascii_of_N (n + 32) else c.

Fixpoint sameIgnoringCase (a b : string) : bool :=
  match a, b with
  | EmptyString, EmptyString => true
  | String x a', String y b' =>
      Ascii.eqb (lower x) (lower y) && sameIgnoringCase a' b'
  | _, _ => false
  end.

Definition matchesSegment (p : Segment) (s : string) : bool :=
  match p with
  | Lit word => sameIgnoringCase word s
  | Param _ => negb (String.eqb s "")
  end.

Fixpoint matchesPath (pattern : list Segment) (path : list string) : bool :=
  match pattern, path with
  | [], [] => true
  | p :: pattern', s :: path' => matchesSegment p s && matchesPath pattern' path'
  | _, _ => false
  end.

Definition handles (registered asked : Method) : bool :=
  match registered, asked with
  | GET, GET | GET, HEAD | HEAD, HEAD
  | POST, POST | PUT, PUT | DELETE, DELETE => true
  | _, _ => false
  end.

Record Route (Handler : Type) := mkRoute {
  method : Method;
  pattern : list Segment;
  handler : Handler
}.
Arguments mkRoute {Handler}.
Arguments method {Handler}.
Arguments pattern {Handler}.
Arguments handler {Handler}.

Definition takes {Handler} (asked : Method) (path : list string)
    (r : Route Handler) : bool :=
  handles (method r) asked && matchesPath (pattern r) path.

Definition dispatch {Handler} (routes : list (Route Handler)) (asked : Method)
    (path : list string) : option Handler :=
  option_map handler (find (takes asked path) routes).

(** The handlers of [server/routes/tasks.ts], in the order of their
    registration. *)
Inductive TaskHandler :=
| CreateTask | ListTasks | GetTask | UpdateTask | DeleteTask | PutTaskStatus
| GetOverdue | GetUpcoming.

Definition taskRoutes : list (Route TaskHandler) :=
  [ mkRoute POST [] CreateTask;
    mkRoute GET [] ListTasks;
    mkRoute GET [Param "id"] GetTask;
    mkRoute PUT [Param "id"] UpdateTask;
    mkRoute DELETE [Param "id"] DeleteTask;
    mkRoute PUT [Param "id"; Lit "status"] PutTaskStatus;
    mkRoute GET [Lit "overdue"] GetOverdue;
    mkRoute GET [Lit "upcoming"] GetUpcoming ].

(** The handlers of the study-sessions router, in the order of their
    registration. *)
Inductive SessionHandler :=
| StartSession | ListSessions | GetActive | GetSession | PutPause | PutResume
| PutComplete | PutBreak | GetSummary.

Definition sessionRoutes : list (Route SessionHandler) :=
  [ mkRoute POST [] StartSession;
    mkRoute GET [] ListSessions;
    mkRoute GET [Lit "active"] GetActive;
    mkRoute GET [Param "id"] GetSession;
    mkRoute PUT [Param "id"; Lit "pause"] PutPause;
    mkRoute PUT [Param "id"; Lit "resume"] PutResume;
    mkRoute PUT [Param "id"; Lit "complete"] PutComplete;
    mkRoute PUT [Param "id"; Lit "break"] PutBreak;
    mkRoute GET [Lit "stats"; Lit "summary"] GetSummary ].

End Routing.

(** * Properties *)

(** ** Pairs of positions of a list *)

Section Pairs.
Context {A : Type}.
Variable R : A -> A -> Prop.
Local Abbreviation PairIn := (PairIn R).

Hypothesis R_sym : forall a b, R a b -> R b a.

Lemma PairIn_perm l l' : Permutation l l' -> PairIn l -> PairIn l'.
Proof.
  induction 1 as [| x l l' Hp IH | x y l | l l' l'' _ IH1 _ IH2]; intros Hin.
  - exact Hin.
  - inversion Hin as [a b t Hb Hr | a t Hl]; subst.
    + apply pair_here with b; [eapply Permutation_in; eassumption | assumption].
    + apply pair_later; auto.
  - inversion Hin as [a b t Hb Hr | a t Hl]; subst.
    + destruct Hb as [<- | Hb].
      * apply pair_here with y; [now left | auto].
      * apply pair_later, pair_here with b; assumption.
    + inversion Hl as [a b t Hb Hr | a t Hl']; subst.
      * apply pair_here with b; [now right | assumption].
      * now apply pair_later, pair_later.
  - auto.
Qed.

Lemma PairIn_nth l :
  PairIn l ->
  exists i j a b, (i < j)%nat /\ nth_error l i = Some a
                  /\ nth_error l j = Some b /\ R a b.
Proof.
  induction 1 as [a b l Hb Hr | a l _ (i & j & x & y & Hij & Hi & Hj & Hr)].
  - apply In_nth_error in Hb as [n Hn].
    exists 0%nat, (S n), a, b; repeat split; auto. lia.
  - exists (S i), (S j), x, y; repeat split; auto. lia.
Qed.

Lemma nth_PairIn l : forall i j a b,
  (i < j)%nat -> nth_error l i = Some a -> nth_error l j = Some b -> R a b ->
  PairIn l.
Proof.
  induction l as [| x l IH]; intros i j a b Hij Hi Hj Hr.
  - destruct i; discriminate.
  - destruct j as [| j]; [lia |]. destruct i as [| i]; simpl in *.
    + injection Hi as ->. apply pair_here with b; [| assumption].
      eapply nth_error_In; eassumption.
    + apply pair_later, (IH i j a b); auto. lia.
Qed.

Lemma TwoDistinct_PairIn l : TwoDistinct R l <-> PairIn l.
Proof.
  split.
  - intros (i & j & a & b & Hij & Hi & Hj & Hr).
    destruct (Nat.lt_ge_cases i j) as [Hlt | Hge].
    + now apply (nth_PairIn l i j a b).
    + apply (nth_PairIn l j i b a); auto. lia.
  - intros H. apply PairIn_nth in H as (i & j & a & b & Hij & Hi & Hj & Hr).
    exists i, j, a, b; repeat split; auto. lia.
Qed.

Lemma TwoDistinct_perm l l' :
  Permutation l l' -> TwoDistinct R l -> TwoDistinct R l'.
Proof.
  intros Hp H. apply TwoDistinct_PairIn. apply TwoDistinct_PairIn in H.
  eapply PairIn_perm; eassumption.
Qed.
End Pairs.

Lemma PairIn_impl {A : Type} (R R' : A -> A -> Prop) (l : list A) :
  (forall a b, In a l -> In b l -> R a b -> R' a b) -> PairIn R l -> PairIn R' l.
Proof.
  intros Himp H. induction H as [a b l Hb Hr | a l H IH].
  - apply pair_here with b; [assumption |]. apply Himp; simpl; auto.
  - apply pair_later, IH. intros x y Hx Hy. apply Himp; simpl; auto.
Qed.

Lemma PairIn_filter {A : Type} (R : A -> A -> Prop) (f : A -> bool) (l : list A) :
  PairIn R (filter f l) <-> PairIn (fun a b => f a = true /\ f b = true /\ R a b) l.
Proof.
  induction l as [| x l IH]; simpl.
  - split; inversion 1.
  - destruct (f x) eqn:Hx; split; intros H.
    + inversion H as [a b t Hb Hr | a t Hl]; subst.
      * apply filter_In in Hb as [Hb Hfb]. apply pair_here with b; auto.
      * apply pair_later, IH, Hl.
    + inversion H as [a b t Hb (_ & Hfb & Hr) | a t Hl]; subst.
      * apply pair_here with b; [apply filter_In; auto | assumption].
      * apply pair_later, IH, Hl.
    + apply pair_later, IH, H.
    + inversion H as [a b t Hb (Hfa & _) | a t Hl]; subst.
      * congruence.
      * apply IH, Hl.
Qed.

(** ** The sort *)

Lemma insert_perm {A : Type} (cmp : A -> A -> option Z) (a : A) (l : list A) :
  Permutation (JS.insert cmp a l) (a :: l).
Proof.
  induction l as [| b l IH]; simpl.
  - reflexivity.
  - destruct (JS.comesAfter cmp a b).
    + rewrite IH. apply perm_swap.
    + reflexivity.
Qed.

Lemma sort_perm {A : Type} (cmp : A -> A -> option Z) (l : list A) :
  Permutation (JS.sort cmp l) l.
Proof.
  induction l as [| a l IH]; simpl.
  - reflexivity.
  - rewrite insert_perm. now apply perm_skip.
Qed.

Section SortedWalk.
Variable timeOf : string -> option Z.

Lemma startsNoLater_trans a b c :
  startsNoLater timeOf a b -> startsNoLater timeOf b c -> startsNoLater timeOf a c.
Proof.
  unfold startsNoLater.
  destruct (timeOf (startTime a)), (timeOf (startTime b)), (timeOf (startTime c));
    intros; try tauto; lia.
Qed.

Lemma comesAfter_true a b :
  JS.comesAfter (byStart timeOf) a b = true -> startsNoLater timeOf b a.
Proof.
  unfold JS.comesAfter, byStart, JS.sub, startsNoLater.
  destruct (timeOf (startTime a)), (timeOf (startTime b)); try discriminate.
  intros H. apply Z.ltb_lt in H. lia.
Qed.

Lemma comesAfter_false a b :
  hasStart timeOf a -> hasStart timeOf b ->
  JS.comesAfter (byStart timeOf) a b = false -> startsNoLater timeOf a b.
Proof.
  unfold hasStart, JS.comesAfter, byStart, JS.sub, startsNoLater.
  destruct (timeOf (startTime a)), (timeOf (startTime b)); try congruence.
  intros _ _ H. apply Z.ltb_ge in H. lia.
Qed.

Lemma insert_sorted a l :
  hasStart timeOf a -> Forall (hasStart timeOf) l ->
  StronglySorted (startsNoLater timeOf) l ->
  StronglySorted (startsNoLater timeOf) (JS.insert (byStart timeOf) a l).
Proof.
  intros Ha Hl Hs. induction Hs as [| b l Hs IH Hb]; simpl.
  - constructor; constructor.
  - inversion Hl as [| ? ? Hb' Hl']; subst.
    destruct (JS.comesAfter (byStart timeOf) a b) eqn:Hc.
    + constructor; [auto |].
      eapply Permutation_Forall; [symmetry; apply insert_perm |].
      constructor; [now apply comesAfter_true | assumption].
    + apply comesAfter_false in Hc; auto.
      constructor; [now constructor |].
      constructor; [assumption |].
      eapply Forall_impl; [| exact Hb].
      intros c Hbc. eapply startsNoLater_trans; eassumption.
Qed.

Lemma sort_sorted l :
  Forall (hasStart timeOf) l -> StronglySorted (startsNoLater timeOf) (JS.sort (byStart timeOf) l).
Proof.
  induction 1 as [| a l Ha Hl IH]; simpl.
  - constructor.
  - apply insert_sorted; auto.
    eapply Permutation_Forall; [symmetry; apply sort_perm | assumption].
Qed.

(** What the walk reports is an adjacent pair of the list it walks, the
    first block ending after the second starts. *)
Lemma firstOverlap_Some l a b :
  firstOverlap timeOf l = Some (a, b) ->
  JS.gt (timeOf (endTime a)) (timeOf (startTime b)) = true
  /\ exists l1 l2, l = l1 ++ a :: b :: l2.
Proof.
  induction l as [| x l IH]; [discriminate |].
  destruct l as [| y l]; [discriminate |].
  cbn [firstOverlap].
  destruct (JS.gt (timeOf (endTime x)) (timeOf (startTime y))) eqn:Hg.
  - intros [= <- <-]. split; [assumption |]. now exists [], l.
  - intros H. apply IH in H as (Hab & l1 & l2 & ->).
    split; [assumption |]. now exists (x :: l1), l2.
Qed.

(** On a list sorted by start, a walk that reports nothing leaves no block
    ending after a later one starts. *)
Lemma firstOverlap_None l :
  StronglySorted (startsNoLater timeOf) l ->
  firstOverlap timeOf l = None ->
  ~ PairIn (fun a b => JS.gt (timeOf (endTime a)) (timeOf (startTime b)) = true) l.
Proof.
  induction 1 as [| x l Hs IH Hx]; intros Hw Hp.
  - inversion Hp.
  - destruct l as [| y l].
    + inversion Hp as [a b t Hb Hr | a t Hl]; subst; [destruct Hb | inversion Hl].
    + cbn [firstOverlap] in Hw.
      destruct (JS.gt (timeOf (endTime x)) (timeOf (startTime y))) eqn:Hg;
        [discriminate |].
      inversion Hp as [a b t Hb Hr | a t Hl]; subst; [| now apply IH].
      assert (Hyb : startsNoLater timeOf y b).
      { destruct Hb as [<- | Hb].
        - inversion Hx as [| ? ? Hxy _]; subst.
          unfold startsNoLater in *.
          destruct (timeOf (startTime x)), (timeOf (startTime y)); try tauto; lia.
        - inversion Hs as [| ? ? _ Hy]; subst.
          rewrite Forall_forall in Hy. now apply Hy. }
      unfold startsNoLater, JS.gt in *.
      destruct (timeOf (endTime x)), (timeOf (startTime y)), (timeOf (startTime b));
        try discriminate; try tauto.
      apply Z.ltb_lt in Hr. apply Z.ltb_ge in Hg. lia.
Qed.

Lemma adjacent_PairIn {A : Type} (R : A -> A -> Prop) (l1 l2 : list A) a b :
  R a b -> PairIn R (l1 ++ a :: b :: l2).
Proof.
  intros Hr. induction l1 as [| x l1 IH]; simpl.
  - apply pair_here with b; [now left | assumption].
  - now apply pair_later.
Qed.
End SortedWalk.

(** ** The grouping by day *)

Lemma hasKey_In d m : hasKey d m = true <-> In d (map fst m).
Proof.
  unfold hasKey. rewrite existsb_exists, in_map_iff. split.
  - intros (e & He & Hk). apply Z.eqb_eq in Hk. now exists e.
  - intros (e & Hk & He). exists e. split; [assumption | now apply Z.eqb_eq].
Qed.

Lemma newKey_perm d m : Permutation (newKey d m) ((d, []) :: m).
Proof.
  induction m as [| [k bs] m IH]; simpl.
  - reflexivity.
  - destruct (keyBefore d k).
    + reflexivity.
    + rewrite IH. apply perm_swap.
Qed.

Lemma pushInto_keys d block m : map fst (pushInto d block m) = map fst m.
Proof.
  induction m as [| [k bs] m IH]; simpl; [reflexivity |].
  destruct (k =? d); simpl; congruence.
Qed.

Lemma pushInto_In d block m k bs :
  NoDup (map fst m) ->
  In (k, bs) (pushInto d block m) <->
  (k <> d /\ In (k, bs) m) \/ (k = d /\ exists old, In (d, old) m /\ bs = old ++ [block]).
Proof.
  induction m as [| [k0 bs0] m IH]; simpl; intros Hnd.
  - split; [tauto | intros [[_ []] | [_ (old & [] & _)]]].
  - inversion Hnd as [| ? ? Hk0 Hnd']; subst.
    destruct (k0 =? d) eqn:Hk; [apply Z.eqb_eq in Hk | apply Z.eqb_neq in Hk]; simpl.
    + subst k0. split.
      * intros [[= <- <-] | Hin].
        -- right. split; [reflexivity |]. exists bs0. auto.
        -- left. split; [| auto]. intros ->. apply Hk0.
           change d with (fst (d, bs)). now apply in_map.
      * intros [[Hne [[= ? ?] | Hin]] | [-> (old & [[= ->] | Hin] & ->)]];
          try congruence; auto.
        exfalso. apply Hk0. change d with (fst (d, old)). now apply in_map.
    + rewrite (IH Hnd'). split.
      * intros [[= <- <-] | [[Hne Hin] | [-> (old & Hin & ->)]]]; auto.
        right. split; [reflexivity |]. exists old. auto.
      * intros [[Hne [[= <- <-] | Hin]] | [-> (old & [[= ? ?] | Hin] & ->)]];
          try congruence; auto.
        right. right. split; [reflexivity |]. exists old. auto.
Qed.

Lemma pushBlock_Grouped seen m block :
  Grouped seen m -> Grouped (seen ++ [block]) (pushBlock (dayOfWeek block) block m).
Proof.
  intros (Hnd & Hbs & Hkeys). unfold pushBlock.
  set (d := dayOfWeek block).
  set (m' := if hasKey d m then m else newKey d m).
  assert (Hnd' : NoDup (map fst m')).
  { subst m'. destruct (hasKey d m) eqn:Hk; [assumption |].
    eapply Permutation_NoDup; [symmetry; apply Permutation_map, newKey_perm |].
    simpl. constructor; [| assumption].
    intros Hin. apply hasKey_In in Hin. congruence. }
  assert (Hd : In d (map fst m')).
  { subst m'. destruct (hasKey d m) eqn:Hk; [now apply hasKey_In |].
    eapply Permutation_in; [symmetry; apply Permutation_map, newKey_perm |].
    now left. }
  assert (Hbs' : forall k bs, In (k, bs) m' -> bs = filter (isDay k) seen).
  { subst m'. destruct (hasKey d m) eqn:Hk; [assumption |].
    intros k bs Hin.
    eapply Permutation_in in Hin; [| apply newKey_perm].
    destruct Hin as [[= <- <-] | Hin]; [| auto].
    destruct (filter (isDay d) seen) as [| b t] eqn:Hf; [reflexivity |].
    assert (Hb : In b (filter (isDay d) seen)) by (rewrite Hf; now left).
    apply filter_In in Hb as [Hb Hday]. apply Z.eqb_eq in Hday.
    apply Hkeys, hasKey_In in Hb. congruence. }
  repeat split.
  - now rewrite pushInto_keys.
  - intros k bs Hin. apply pushInto_In in Hin; [| assumption].
    rewrite filter_app. simpl. unfold isDay at 2. fold d.
    destruct Hin as [[Hne Hin] | [-> (old & Hin & ->)]].
    + apply Z.eqb_neq in Hne. rewrite Z.eqb_sym, Hne, app_nil_r. auto.
    + rewrite Z.eqb_refl. f_equal. auto.
  - intros b Hb. rewrite pushInto_keys. apply in_app_or in Hb as [Hb | [<- | []]].
    + subst m'. destruct (hasKey d m); [auto |].
      eapply Permutation_in; [symmetry; apply Permutation_map, newKey_perm |].
      right. auto.
    + exact Hd.
Qed.

Lemma fold_pushBlock_Grouped blocks : forall seen m,
  Grouped seen m ->
  Grouped (seen ++ blocks)
    (fold_left (fun m block => pushBlock (dayOfWeek block) block m) blocks m).
Proof.
  induction blocks as [| block blocks IH]; intros seen m Hg; simpl.
  - now rewrite app_nil_r.
  - replace (seen ++ block :: blocks) with ((seen ++ [block]) ++ blocks)
      by (now rewrite <- app_assoc).
    apply IH, pushBlock_Grouped, Hg.
Qed.

Lemma groupByDay_Grouped blocks : Grouped blocks (groupByDay blocks).
Proof.
  apply (fold_pushBlock_Grouped blocks [] []).
  repeat split; simpl; [constructor | tauto | tauto].
Qed.

Lemma StronglySorted_suffix {A : Type} (R : A -> A -> Prop) (l1 l2 : list A) :
  StronglySorted R (l1 ++ l2) -> StronglySorted R l2.
Proof.
  induction l1 as [| x l1 IH]; simpl; [auto |].
  intros H. apply StronglySorted_inv in H as [H _]. auto.
Qed.

(** ** The walk over the days *)

Section Detection.
Variable timeOf : string -> option Z.

Lemma inConflict_sym a b :
  inConflict timeOf a b = true -> inConflict timeOf b a = true.
Proof.
  unfold inConflict, intervalsOverlap. intros H.
  apply andb_true_iff in H as [Hd Ho]. apply andb_true_iff in Ho as [H1 H2].
  apply Z.eqb_eq in Hd. rewrite H1, H2, Hd, Z.eqb_refl. reflexivity.
Qed.

Lemma findOverlap_Some m day a b :
  findOverlap timeOf m = Some (day, (a, b)) ->
  exists bs, In (day, bs) m
             /\ firstOverlap timeOf (JS.sort (byStart timeOf) bs) = Some (a, b).
Proof.
  induction m as [| [d bs] m IH]; simpl; [discriminate |].
  destruct (firstOverlap timeOf (JS.sort (byStart timeOf) bs)) as [found |] eqn:Hw.
  - intros [= <- ->]. exists bs. auto.
  - intros H. apply IH in H as (bs' & Hin & H). exists bs'. auto.
Qed.

Lemma findOverlap_None m d bs :
  findOverlap timeOf m = None -> In (d, bs) m ->
  firstOverlap timeOf (JS.sort (byStart timeOf) bs) = None.
Proof.
  induction m as [| [d' bs'] m IH]; simpl; [tauto |].
  destruct (firstOverlap timeOf (JS.sort (byStart timeOf) bs')) eqn:Hw;
    [discriminate |].
  intros H [[= <- <-] | Hin]; auto.
Qed.

(** The pair the validation reports: two blocks at distinct positions of the
    list, both of the reported day, the first ending after the second starts. *)
Lemma reported_pair blocks day a b :
  findOverlap timeOf (groupByDay blocks) = Some (day, (a, b)) ->
  dayOfWeek a = day /\ dayOfWeek b = day /\ endsAfterStart timeOf a b
  /\ TwoDistinct (fun x y => x = a /\ y = b) blocks.
Proof.
  intros H. apply findOverlap_Some in H as (bs & Hin & Hw).
  destruct (groupByDay_Grouped blocks) as (_ & Hbs & _).
  apply Hbs in Hin. apply firstOverlap_Some in Hw as (Hab & l1 & l2 & Hl).
  assert (Hperm : Permutation (JS.sort (byStart timeOf) bs) bs) by apply sort_perm.
  assert (Hmem : forall x, In x (JS.sort (byStart timeOf) bs) -> dayOfWeek x = day).
  { intros x Hx. eapply Permutation_in in Hx; [| exact Hperm].
    rewrite Hin in Hx. apply filter_In in Hx as [_ Hx]. now apply Z.eqb_eq in Hx. }
  repeat split.
  - apply Hmem. rewrite Hl. apply in_elt.
  - apply Hmem. rewrite Hl. apply in_or_app. right. right. now left.
  - exact Hab.
  - set (R := fun x y : TimeBlock => (x = a /\ y = b) \/ (x = b /\ y = a)).
    assert (Hp : PairIn R blocks).
    { assert (Hf : PairIn R (filter (isDay day) blocks)).
      { rewrite <- Hin. apply PairIn_perm with (JS.sort (byStart timeOf) bs).
        - unfold R. tauto.
        - exact Hperm.
        - rewrite Hl. apply adjacent_PairIn. left. auto. }
      apply PairIn_filter in Hf.
      eapply PairIn_impl; [| exact Hf]. simpl. tauto. }
    apply TwoDistinct_PairIn in Hp; [| unfold R; tauto].
    destruct Hp as (i & j & x & y & Hij & Hi & Hj & [[-> ->] | [-> ->]]).
    + exists i, j, a, b. auto.
    + exists j, i, a, b. auto.
Qed.

(** With every start a time, the validation misses no pair of blocks of one
    day of which one ends after the other starts, and the other way round. *)
Lemma overlap_found blocks :
  Forall (hasStart timeOf) blocks ->
  ConflictingPair timeOf blocks ->
  findOverlap timeOf (groupByDay blocks) <> None.
Proof.
  intros Hst Hc Hnone.
  apply TwoDistinct_PairIn in Hc.
  2:{ intros a b. apply inConflict_sym. }
  apply PairIn_nth in Hc as (i & j & a & b & Hij & Hi & Hj & Hab).
  destruct (groupByDay_Grouped blocks) as (_ & Hbs & Hkeys).
  assert (Ha : In a blocks) by (eapply nth_error_In; eassumption).
  apply Hkeys, in_map_iff in Ha as ([d bs] & Hd & Hin). simpl in Hd. subst d.
  pose proof (Hbs _ _ Hin) as Hfil.
  pose proof (findOverlap_None _ _ _ Hnone Hin) as Hw.
  apply firstOverlap_None in Hw.
  - apply Hw.
    set (R := fun x y => inConflict timeOf x y = true).
    assert (Hsym : forall x y, R x y -> R y x)
      by (intros x y; apply inConflict_sym).
    assert (Hp : PairIn R (JS.sort (byStart timeOf) bs)).
    { apply PairIn_perm with bs; [exact Hsym | symmetry; apply sort_perm |].
      rewrite Hfil. apply PairIn_filter.
      apply (nth_PairIn _ blocks i j a b); auto.
      unfold R, isDay. repeat split; [apply Z.eqb_refl | | exact Hab].
      unfold inConflict in Hab. apply andb_true_iff in Hab as [Hd _].
      apply Z.eqb_eq in Hd. rewrite <- Hd. apply Z.eqb_refl. }
    eapply PairIn_impl; [| exact Hp].
    unfold R, inConflict, intervalsOverlap, JS.lt. intros x y _ _ Hxy.
    apply andb_true_iff in Hxy as [_ Hxy]. apply andb_true_iff in Hxy as [_ H2].
    exact H2.
  - apply sort_sorted. rewrite Hfil.
    rewrite Forall_forall in *. intros x Hx. apply filter_In in Hx as [Hx _]. auto.
Qed.

(** A block that starts before it ends starts at a time. *)
Lemma startsBeforeEnd_hasStart b :
  startsBeforeEnd timeOf b = true -> hasStart timeOf b.
Proof.
  unfold startsBeforeEnd, JS.lt, JS.gt, hasStart.
  destruct (timeOf (endTime b)), (timeOf (startTime b)); congruence.
Qed.

(** On blocks that all start before they end, the validation reports a pair
    exactly when two blocks of one day overlap. *)
Lemma findOverlap_iff blocks :
  Forall (fun b => startsBeforeEnd timeOf b = true) blocks ->
  findOverlap timeOf (groupByDay blocks) <> None <-> ConflictingPair timeOf blocks.
Proof.
  intros Hok. split.
  - destruct (findOverlap timeOf (groupByDay blocks)) as [[day [a b]] |] eqn:Hf;
      [intros _ | congruence].
    pose proof Hf as Hrep. apply reported_pair in Hrep as (Ha & Hb & Hab & Hpos).
    apply findOverlap_Some in Hf as (bs & Hin & Hw).
    destruct (groupByDay_Grouped blocks) as (_ & Hbs & _). apply Hbs in Hin.
    apply firstOverlap_Some in Hw as (_ & l1 & l2 & Hl).
    assert (Hsorted : StronglySorted (startsNoLater timeOf)
                        (JS.sort (byStart timeOf) bs)).
    { apply sort_sorted. rewrite Hin. rewrite Forall_forall in *.
      intros x Hx. apply filter_In in Hx as [Hx _].
      now apply startsBeforeEnd_hasStart, Hok. }
    rewrite Hl in Hsorted. apply StronglySorted_suffix in Hsorted.
    apply StronglySorted_inv in Hsorted as [_ Hle].
    apply Forall_inv in Hle.
    destruct Hpos as (i & j & x & y & Hij & Hi & Hj & -> & ->).
    exists i, j, a, b. repeat split; auto.
    assert (Hbok : startsBeforeEnd timeOf b = true).
    { rewrite Forall_forall in Hok. apply Hok. eapply nth_error_In; eassumption. }
    unfold inConflict, intervalsOverlap. rewrite Ha, Hb, Z.eqb_refl. simpl.
    unfold endsAfterStart in Hab. unfold JS.lt. rewrite Hab, andb_true_r.
    unfold startsBeforeEnd, JS.lt, JS.gt, startsNoLater in *.
    destruct (timeOf (startTime a)), (timeOf (startTime b)), (timeOf (endTime b));
      try discriminate; try tauto.
    apply Z.ltb_lt. apply Z.ltb_lt in Hbok. lia.
  - apply overlap_found. eapply Forall_impl; [| exact Hok].
    intros b. apply startsBeforeEnd_hasStart.
Qed.
End Detection.

(** ** [hasConflicts] *)

Lemma hasConflicts_true h s :
  hasConflicts h s = true <->
  findOverlap (parseTime h) (groupByDay (timeBlocks s)) <> None.
Proof.
  unfold hasConflicts.
  destruct (findOverlap (parseTime h) (groupByDay (timeBlocks s)));
    split; congruence.
Qed.

Lemma hasConflicts_iff h s :
  Forall (fun b => startsBeforeEnd (parseTime h) b = true) (timeBlocks s) ->
  hasConflicts h s = true <-> ConflictingPair (parseTime h) (timeBlocks s).
Proof.
  intros Hok. rewrite hasConflicts_true. now apply findOverlap_iff.
Qed.

Lemma ConflictingPair_spelled timeOf blocks :
  ConflictingPair timeOf blocks <->
  exists i j a b,
    i <> j /\ nth_error blocks i = Some a /\ nth_error blocks j = Some b
    /\ dayOfWeek a = dayOfWeek b
    /\ JS.lt (timeOf (startTime a)) (timeOf (endTime b)) = true
    /\ JS.lt (timeOf (startTime b)) (timeOf (endTime a)) = true.
Proof.
  unfold ConflictingPair, TwoDistinct, inConflict, intervalsOverlap.
  split; intros (i & j & a & b & Hij & Hi & Hj & H); exists i, j, a, b.
  - apply andb_true_iff in H as [Hd Ho]. apply andb_true_iff in Ho as [H1 H2].
    apply Z.eqb_eq in Hd. auto 6.
  - destruct H as (Hd & H1 & H2). rewrite Hd, Z.eqb_refl, H1, H2. auto.
Qed.

(** [hasConflicts] compares the instants that [parseTime] reads today. On a
    schedule whose blocks all start before they end as instants, it is true
    exactly when two distinct blocks of the same [dayOfWeek] overlap as
    instants. For two blocks of one day: if one ends at the instant the other
    starts there is no conflict; if the one that starts first ends after the
    other starts there is one. *)
Lemma hasConflicts_overlap_as_read (h : Host) (s : Schedule) :
  Forall (fun b => startsBeforeEnd (parseTime h) b = true) (timeBlocks s) ->
  (hasConflicts h s = true <->
   exists i j a b,
     i <> j /\ nth_error (timeBlocks s) i = Some a
     /\ nth_error (timeBlocks s) j = Some b
     /\ dayOfWeek a = dayOfWeek b
     /\ JS.lt (parseTime h (startTime a)) (parseTime h (endTime b)) = true
     /\ JS.lt (parseTime h (startTime b)) (parseTime h (endTime a)) = true)
  /\ (forall a b,
        timeBlocks s = [a; b] \/ timeBlocks s = [b; a] ->
        dayOfWeek a = dayOfWeek b ->
        parseTime h (endTime a) = parseTime h (startTime b) ->
        hasConflicts h s = false)
  /\ (forall a b,
        timeBlocks s = [a; b] \/ timeBlocks s = [b; a] ->
        dayOfWeek a = dayOfWeek b ->
        JS.gt (parseTime h (startTime a)) (parseTime h (startTime b)) = false ->
        JS.gt (parseTime h (endTime a)) (parseTime h (startTime b)) = true ->
        hasConflicts h s = true).
Proof.
  intros Hok.
  assert (Hiff := hasConflicts_iff h s Hok).
  rewrite ConflictingPair_spelled in Hiff.
  split; [exact Hiff | split].
  - intros a b Hl Hd Htouch.
    destruct (hasConflicts h s) eqn:Hc; [exfalso | reflexivity].
    apply proj1 in Hiff. specialize (Hiff eq_refl).
    destruct Hiff as (i & j & x & y & Hij & Hi & Hj & _ & H1 & H2).
    assert (Hxy : (x = a /\ y = b) \/ (x = b /\ y = a)).
    { destruct Hl as [Hl | Hl]; rewrite Hl in Hi, Hj;
        destruct i as [| [| i]], j as [| [| j]]; simpl in Hi, Hj;
        try congruence; try (destruct i; discriminate);
        try (destruct j; discriminate);
        injection Hi as Hi; injection Hj as Hj; symmetry in Hi, Hj; tauto. }
    unfold JS.lt, JS.gt in *.
    destruct Hxy as [[-> ->] | [-> ->]]; rewrite Htouch in *;
      destruct (parseTime h (startTime b)); try discriminate;
      [apply Z.ltb_lt in H2 | apply Z.ltb_lt in H1]; lia.
  - intros a b Hl Hd Hfirst Hends.
    apply Hiff.
    assert (Hboth : startsBeforeEnd (parseTime h) a = true
                    /\ startsBeforeEnd (parseTime h) b = true).
    { rewrite Forall_forall in Hok.
      split; apply Hok; destruct Hl as [-> | ->]; simpl; auto. }
    destruct Hboth as [Ha Hb].
    assert (Hab : JS.lt (parseTime h (startTime a)) (parseTime h (endTime b)) = true).
    { unfold startsBeforeEnd, JS.lt, JS.gt in *.
      destruct (parseTime h (startTime a)), (parseTime h (startTime b)),
        (parseTime h (endTime b)), (parseTime h (endTime a)); try discriminate.
      apply Z.ltb_lt. apply Z.ltb_lt in Hb. apply Z.ltb_ge in Hfirst. lia. }
    destruct Hl as [Hl | Hl]; rewrite Hl.
    + exists 0%nat, 1%nat, a, b. repeat split; auto.
    + exists 1%nat, 0%nat, a, b. repeat split; auto.
Qed.

(** In the same reading, [hasConflicts] gives the same value for every
    reordering of [timeBlocks]. *)
Lemma hasConflicts_order_as_read (h : Host) (s : Schedule)
    (reordered : list TimeBlock) :
  Forall (fun b => startsBeforeEnd (parseTime h) b = true) (timeBlocks s) ->
  Permutation (timeBlocks s) reordered ->
  hasConflicts h (setTimeBlocks s reordered) = hasConflicts h s.
Proof.
  intros Hok Hperm.
  assert (Hok' : Forall (fun b => startsBeforeEnd (parseTime h) b = true)
                   (timeBlocks (setTimeBlocks s reordered))).
  { simpl. eapply Permutation_Forall; eassumption. }
  apply eq_true_iff_eq.
  rewrite (hasConflicts_iff h s Hok), (hasConflicts_iff h _ Hok'). simpl.
  unfold ConflictingPair.
  split; apply TwoDistinct_perm;
    try (intros a b; apply inConflict_sym); [symmetry |]; assumption.
Qed.

(** ** A day on which the clocks change *)

(** What [parseTime] reads in New York on 10 March 2024: 02:30, which the
    clocks skip, is 07:30 UTC, later than 03:00, which is 07:00 UTC. *)
Lemma parseTime_on_a_clock_change_day :
  parseTime Scenario.newYork "02:30" = Some 1710055800000
  /\ parseTime Scenario.newYork "03:00" = Some 1710054000000
  /\ parseTime Scenario.newYork "03:30" = Some 1710055800000
  /\ parseTime Scenario.newYork "04:00" = Some 1710057600000.
Proof. repeat split; vm_compute; reflexivity. Qed.

(** C1, on a day on which the clocks change: in New York on 10 March 2024 the
    Sunday blocks 03:30-04:00 and 02:30-03:00, which both start before they
    end and lie half an hour apart, are reported as a conflict. POST /
    accepts them on that same day, and on 1 January 2024 on a server on UTC
    there is no conflict. *)
Theorem hasConflicts_reports_blocks_apart_on_a_clock_change_day :
  let blocks := [Scenario.late; Scenario.early] in
  Forall (fun b => startsBeforeEnd timeOfDay b = true) blocks
  /\ ~ ConflictingPair timeOfDay blocks
  /\ hasConflicts Scenario.newYork (Scenario.stored blocks) = true
  /\ hasConflicts Scenario.host (Scenario.stored blocks) = false
  /\ exists created,
       postSchedule Scenario.newYork [] "u1" "s1" (Scenario.createBody blocks)
       = ([created], Created created)
       /\ timeBlocks created = blocks
       /\ hasConflicts Scenario.newYork created = true.
Proof.
  intros blocks.
  assert (Hok : Forall (fun b => startsBeforeEnd timeOfDay b = true) blocks)
    by (repeat constructor).
  split; [exact Hok |]. split.
  - intros Hpair. apply (findOverlap_iff timeOfDay blocks Hok) in Hpair.
    apply Hpair. vm_compute. reflexivity.
  - split; [vm_compute; reflexivity |]. split; [vm_compute; reflexivity |].
    eexists. split; [vm_compute; reflexivity |].
    split; vm_compute; reflexivity.
Qed.

(** C7, on that day: the same two blocks in the order 02:30-03:00,
    03:30-04:00 give no conflict, in the other order they give one. Both
    starts are read as 07:30 UTC, so the sort keeps the order it is given. *)
Theorem hasConflicts_depends_on_the_order_on_a_clock_change_day :
  let s := Scenario.stored [Scenario.early; Scenario.late] in
  let reordered := [Scenario.late; Scenario.early] in
  Forall (fun b => startsBeforeEnd timeOfDay b = true) (timeBlocks s)
  /\ Permutation (timeBlocks s) reordered
  /\ hasConflicts Scenario.newYork s = false
  /\ hasConflicts Scenario.newYork (setTimeBlocks s reordered) = true
  /\ hasConflicts Scenario.host s
     = hasConflicts Scenario.host (setTimeBlocks s reordered).
Proof.
  intros s reordered. split; [repeat constructor |].
  split; [apply perm_swap |].
  repeat split; vm_compute; reflexivity.
Qed.

(** ** Readings that differ by a constant *)

Lemma sort_ext {A : Type} (cmp cmp' : A -> A -> option Z) (l : list A) :
  (forall a b, cmp a b = cmp' a b) -> JS.sort cmp l = JS.sort cmp' l.
Proof.
  intros Hext. induction l as [| a l IH]; simpl; [reflexivity |].
  rewrite IH. generalize (JS.sort cmp' l). intros sorted.
  induction sorted as [| b sorted IHs]; simpl; [reflexivity |].
  unfold JS.comesAfter. rewrite Hext, IHs. reflexivity.
Qed.

Section Shift.
Variables timeOf timeOf' : string -> option Z.
Variable delta : Z.
Hypothesis shifted : forall t, timeOf' t = option_map (fun v => v + delta) (timeOf t).

Lemma byStart_shift a b : byStart timeOf' a b = byStart timeOf a b.
Proof.
  unfold byStart. rewrite !shifted.
  destruct (timeOf (startTime a)), (timeOf (startTime b)); simpl; try reflexivity.
  f_equal. lia.
Qed.

Lemma gt_shift x y : JS.gt (timeOf' x) (timeOf' y) = JS.gt (timeOf x) (timeOf y).
Proof.
  rewrite !shifted. destruct (timeOf x), (timeOf y); simpl; try reflexivity.
  apply eq_true_iff_eq. rewrite !Z.ltb_lt. lia.
Qed.

Lemma firstOverlap_shift l : firstOverlap timeOf' l = firstOverlap timeOf l.
Proof.
  induction l as [| a l IH]; [reflexivity |].
  destruct l as [| b l]; [reflexivity |].
  cbn [firstOverlap]. rewrite gt_shift.
  destruct (JS.gt (timeOf (endTime a)) (timeOf (startTime b))); [reflexivity | exact IH].
Qed.

Lemma findOverlap_shift m : findOverlap timeOf' m = findOverlap timeOf m.
Proof.
  induction m as [| [d bs] m IH]; simpl; [reflexivity |].
  rewrite (sort_ext (byStart timeOf') (byStart timeOf)) by apply byStart_shift.
  rewrite firstOverlap_shift, IH. reflexivity.
Qed.
End Shift.

(** ** What [hasConflicts] reads *)

(** C9. [hasConflicts] is a function of [timeBlocks] alone: asked of two
    schedules with the same blocks it gives the same value, whatever their
    name, description, [isActive], recurrence rule and exceptions; toggling
    [isActive] leaves it unchanged. *)
Theorem hasConflicts_only_reads_timeBlocks (h : Host) (s1 s2 : Schedule) :
  timeBlocks s1 = timeBlocks s2 ->
  hasConflicts h s1 = hasConflicts h s2
  /\ (forall db db' toggled,
        toggleActive h db s2 = Some (db', toggled) ->
        isActive toggled = negb (isActive s2)
        /\ hasConflicts h toggled = hasConflicts h s1).
Proof.
  intros Hblocks.
  assert (Hsame : hasConflicts h s1 = hasConflicts h s2)
    by (unfold hasConflicts; now rewrite Hblocks).
  split; [exact Hsame |].
  intros db db' toggled. unfold toggleActive, save.
  destruct (validSchedule (setIsActive s2 (negb (isActive s2)))); [| discriminate].
  intros [= _ <-]. split; [reflexivity |]. rewrite Hsame. reflexivity.
Qed.

(** ** Removing a block *)

Lemma withoutBlock_unknown blockId blocks :
  (forall b, In b blocks -> _id b <> blockId) -> withoutBlock blockId blocks = blocks.
Proof.
  intros Hno. unfold withoutBlock. induction blocks as [| b blocks IH]; simpl.
  - reflexivity.
  - destruct (String.eqb (_id b) blockId) eqn:He; simpl.
    + apply String.eqb_eq in He. exfalso. apply (Hno b); simpl; auto.
    + f_equal. apply IH. intros x Hx. apply Hno. simpl; auto.
Qed.

Lemma setTimeBlocks_same s : setTimeBlocks s (timeBlocks s) = s.
Proof. now destruct s. Qed.

(** C6. Removing a block id that no block of the schedule has is a no-op
    that raises nothing: the method saves the schedule as it was (only
    [updatedAt] is refreshed by the save), the route answers 200 with it, and
    its [timeBlocks] are those it had. *)
Theorem removeTimeBlock_unknown_id_is_noop (h : Host) (db : Db)
    (user id : ObjectId) (s : Schedule) (blockId : string) :
  findOne db id user = Some s ->
  validSchedule s = true ->
  (forall b, In b (timeBlocks s) -> _id b <> blockId) ->
  let saved := setUpdatedAt s (now h) in
  removeTimeBlock h db s blockId = Some (store db saved, saved)
  /\ deleteTimeBlock h db user id blockId = (store db saved, Ok saved)
  /\ timeBlocks saved = timeBlocks s.
Proof.
  intros Hfound Hvalid Hno saved.
  assert (Hm : removeTimeBlock h db s blockId = Some (store db saved, saved)).
  { unfold removeTimeBlock, save.
    rewrite (withoutBlock_unknown _ _ Hno), setTimeBlocks_same, Hvalid.
    reflexivity. }
  repeat split; [exact Hm |].
  unfold deleteTimeBlock, withSchedule. now rewrite Hfound, Hm.
Qed.

Lemma removeTimeBlock_unknown_id_is_noop_witness :
  deleteTimeBlock Scenario.host [Scenario.stored Scenario.backToBack] "u1" "s1" "b9"
  = ([setUpdatedAt (Scenario.stored Scenario.backToBack) (now Scenario.host)],
     Ok (setUpdatedAt (Scenario.stored Scenario.backToBack) (now Scenario.host))).
Proof.
  apply (removeTimeBlock_unknown_id_is_noop Scenario.host
           [Scenario.stored Scenario.backToBack] "u1" "s1"
           (Scenario.stored Scenario.backToBack) "b9").
  - reflexivity.
  - reflexivity.
  - simpl. intros b [<- | [<- | []]]; discriminate.
Defined.

(** ** The scenarios, on the model *)

(** Back-to-back blocks are no conflict, overlapping ones are. *)
Lemma hasConflicts_scenario :
  hasConflicts Scenario.host (Scenario.stored Scenario.backToBack) = false
  /\ hasConflicts Scenario.host (Scenario.stored Scenario.overlapping) = true.
Proof. split; vm_compute; reflexivity. Qed.

Lemma hasConflicts_only_reads_timeBlocks_witness :
  hasConflicts Scenario.newYork (Scenario.stored Scenario.overlapping)
  = hasConflicts Scenario.newYork
      (mkSchedule "s2" "u2" "Other" (Some "evenings") false Scenario.overlapping
         (mkRecurring false daily 0 (Some 1) [2; 4])
         [mkScheduleException 0 "holiday" skip []] 1 2).
Proof.
  apply (hasConflicts_only_reads_timeBlocks Scenario.newYork). reflexivity.
Defined.

(** ** What the boundary validates *)

Lemma check_nil ok message : check ok message = [] <-> ok = true.
Proof. destruct ok; simpl; split; congruence. Qed.

Lemma chain_nil (p : TimeBlock -> bool) message blocks :
  flat_map (fun b => check (p b) message) blocks = [] <-> forallb p blocks = true.
Proof.
  induction blocks as [| b blocks IH]; simpl; [tauto |].
  destruct (p b); simpl; [exact IH | split; discriminate].
Qed.

Lemma forallb_and {A : Type} (p q : A -> bool) l :
  forallb (fun a => p a && q a) l = forallb p l && forallb q l.
Proof.
  induction l as [| a l IH]; simpl; [reflexivity |].
  rewrite IH. destruct (p a), (q a), (forallb p l); reflexivity.
Qed.

(** The four chains on the blocks pass exactly when every block has a day
    in 0..6, two times of the pattern and a subject. *)
Lemma block_chains_nil message blocks :
  dayErrors blocks ++ startErrors blocks ++ endErrors blocks
  ++ subjectErrors message blocks = []
  <-> forallb validTimeBlock blocks = true.
Proof.
  unfold dayErrors, startErrors, endErrors, subjectErrors, validTimeBlock.
  rewrite !forallb_and, !andb_true_iff.
  split.
  - intros H. apply app_eq_nil in H as [H1 H]. apply app_eq_nil in H as [H2 H].
    apply app_eq_nil in H as [H3 H4].
    apply chain_nil in H1, H2, H3, H4.
    rewrite forallb_and in H1. apply andb_true_iff in H1. tauto.
  - intros [[[[H0 H1] H2] H3] H4].
    assert (H01 := conj H0 H1). rewrite <- andb_true_iff, <- forallb_and in H01.
    rewrite <- chain_nil in H01, H2, H3, H4.
    rewrite H01, H2, H3. simpl. apply H4.
Qed.

Lemma blockErrors_nil block : blockErrors block = [] <-> validTimeBlock block = true.
Proof.
  unfold blockErrors. rewrite block_chains_nil. simpl. now rewrite andb_true_r.
Qed.

Lemma createErrors_nil body :
  createErrors body = [] ->
  forallb validTimeBlock (cTimeBlocks body) = true.
Proof.
  unfold createErrors. intros H.
  apply app_eq_nil in H as [_ H]. apply app_eq_nil in H as [_ H].
  rewrite !app_assoc in H. apply app_eq_nil in H as [H _].
  rewrite <- !app_assoc in H. eapply block_chains_nil, H.
Qed.

Lemma createErrors_block body :
  forallb validTimeBlock (cTimeBlocks body) = false -> createErrors body <> [].
Proof.
  intros Hbad Hnil. apply createErrors_nil in Hnil. congruence.
Qed.

(** C4, as the routes have it. The boundary of POST / and of
    PUT /:id/time-blocks checks the form of a block, nothing more: a block
    that is accepted, and every block of the document that is stored, has a
    day in 0..6, a start and an end matching the time pattern and a subject;
    a block failing one of these is refused with the validation errors and
    the collection is left as it was. *)
Theorem accepted_blocks_have_valid_fields (h : Host) (db : Db) (user id : ObjectId) :
  (forall body db' s,
     postSchedule h db user id body = (db', Created s) ->
     forallb validTimeBlock (cTimeBlocks body) = true
     /\ timeBlocks s = map castTimeBlock (cTimeBlocks body)
     /\ forallb validTimeBlock (timeBlocks s) = true)
  /\ (forall body,
        forallb validTimeBlock (cTimeBlocks body) = false ->
        exists errors, errors <> []
          /\ postSchedule h db user id body = (db, BadRequest errors))
  /\ (forall block db' saved,
        putTimeBlock h db user id block = (db', Ok saved) ->
        validTimeBlock block = true
        /\ forallb validTimeBlock (timeBlocks saved) = true)
  /\ (forall block,
        validTimeBlock block = false ->
        exists errors, errors <> []
          /\ putTimeBlock h db user id block = (db, BadRequest errors)).
Proof.
  repeat split.
  - revert H. unfold postSchedule.
    destruct (createErrors body) eqn:He; [| discriminate].
    intros _. now apply createErrors_nil.
  - revert H. unfold postSchedule.
    destruct (createErrors body); [| discriminate].
    destruct (overlapIn h (cTimeBlocks body)) as [[day found] |]; [discriminate |].
    destruct (bStartDate (cRecurring body)); [| discriminate].
    match goal with |- context [validSchedule ?d] => destruct (validSchedule d) end;
      [| discriminate].
    now intros [= _ <-].
  - revert H. unfold postSchedule.
    destruct (createErrors body); [| discriminate].
    destruct (overlapIn h (cTimeBlocks body)) as [[day found] |]; [discriminate |].
    destruct (bStartDate (cRecurring body)); [| discriminate].
    match goal with
    | |- context [validSchedule ?d] => destruct (validSchedule d) eqn:Hv
    end; [| discriminate].
    intros [= _ <-]. unfold validSchedule in Hv. simpl in Hv.
    apply andb_true_iff in Hv as [Hv _]. apply andb_true_iff in Hv as [Hv _].
    now apply andb_true_iff in Hv as [_ Hv].
  - intros body Hbad. apply createErrors_block in Hbad. unfold postSchedule.
    destruct (createErrors body) as [| e errors]; [congruence |].
    exists (e :: errors). split; [discriminate | reflexivity].
  - revert H. unfold putTimeBlock.
    destruct (blockErrors block) eqn:He; [| discriminate].
    intros _. now apply blockErrors_nil.
  - revert H. unfold putTimeBlock, withSchedule, addTimeBlock, save.
    destruct (blockErrors block); [| discriminate].
    destruct (findOne db id user) as [old |]; [| discriminate].
    match goal with
    | |- context [validSchedule ?d] => destruct (validSchedule d) eqn:Hv
    end; [| discriminate].
    intros [= _ <-]. unfold validSchedule in Hv. simpl in Hv.
    apply andb_true_iff in Hv as [Hv _]. apply andb_true_iff in Hv as [Hv _].
    now apply andb_true_iff in Hv as [_ Hv].
  - intros block Hbad. unfold putTimeBlock.
    destruct (blockErrors block) as [| e errors] eqn:He.
    + apply blockErrors_nil in He. congruence.
    + exists (e :: errors). split; [discriminate | reflexivity].
Qed.

Lemma accepted_blocks_have_valid_fields_witness :
  forallb validTimeBlock Scenario.backToBack = true
  /\ exists errors,
       postSchedule Scenario.host [] "u1" "s1"
         (Scenario.createBody [Scenario.block "b1" 7 "09:00" "10:00"])
       = ([], BadRequest errors).
Proof.
  destruct (accepted_blocks_have_valid_fields Scenario.host [] "u1" "s1")
    as (Hcreated & Hrefused & _).
  split.
  - eapply (Hcreated (Scenario.createBody Scenario.backToBack)). reflexivity.
  - destruct (Hrefused (Scenario.createBody [Scenario.block "b1" 7 "09:00" "10:00"]))
      as (errors & _ & Hr); [reflexivity |].
    exists errors. exact Hr.
Defined.

(** C4, refuted as stated: POST / accepts and stores a block that ends
    before it starts and a block of no duration. *)
Lemma postSchedule_stores_blocks_that_do_not_start_before_they_end :
  exists s,
    postSchedule Scenario.host [] "u1" "s1" (Scenario.createBody Scenario.reversed)
    = ([s], Created s)
    /\ timeBlocks s = Scenario.reversed
    /\ Forall (fun b => startsBeforeEnd (parseTime Scenario.host) b = false)
         (timeBlocks s).
Proof.
  eexists. split; [reflexivity |]. split; [reflexivity |].
  repeat constructor.
Qed.

(** ** Adding a block *)

(** The route that adds a block never answers with an overlap: its handler
    validates the fields of the block and saves. *)
Lemma putTimeBlock_never_Overlap h db user id body day found :
  snd (putTimeBlock h db user id body) <> Overlap day found.
Proof.
  unfold putTimeBlock, withSchedule.
  destruct (blockErrors body); [| discriminate].
  destruct (findOne db id user) as [s |]; [| discriminate].
  destruct (addTimeBlock h db s body) as [[db' saved] |]; discriminate.
Qed.

(** Whatever the stored blocks are, a block with valid fields is appended to
    a valid schedule. *)
Lemma putTimeBlock_appends h db user id s block :
  findOne db id user = Some s ->
  validSchedule s = true ->
  validTimeBlock block = true ->
  validTimeBlock (castTimeBlock block) = true ->
  exists saved,
    putTimeBlock h db user id block = (store db saved, Ok saved)
    /\ timeBlocks saved = timeBlocks s ++ [castTimeBlock block].
Proof.
  intros Hs Hv Hb Hc. unfold putTimeBlock, withSchedule, addTimeBlock, save.
  apply blockErrors_nil in Hb. rewrite Hb, Hs.
  assert (Hv' : validSchedule
                  (setTimeBlocks s (timeBlocks s ++ [castTimeBlock block])) = true).
  { unfold validSchedule in *. simpl.
    rewrite forallb_app. simpl. rewrite Hc.
    apply andb_true_iff in Hv as [Hv H4]. apply andb_true_iff in Hv as [Hv H3].
    apply andb_true_iff in Hv as [H1 H2]. now rewrite H1, H2, H3, H4. }
  rewrite Hv'. eexists. split; reflexivity.
Qed.

(** C3, at a block that overlaps a stored one: PUT /:id/time-blocks with
    Monday 09:30-10:30 on a schedule that holds Monday 09:00-10:00 answers 200,
    the block is appended, and the stored schedule now has a conflict. *)
Theorem putTimeBlock_appends_an_overlapping_block :
  let before := Scenario.stored [Scenario.block "b1" 1 "09:00" "10:00"] in
  let added := Scenario.block "b2" 1 "09:30" "10:30" in
  let after := setUpdatedAt (Scenario.stored Scenario.overlapping) (now Scenario.host) in
  intervalsOverlap (parseTime Scenario.host) (Scenario.block "b1" 1 "09:00" "10:00") added
    = true
  /\ putTimeBlock Scenario.host [before] "u1" "s1" added = ([after], Ok after)
  /\ timeBlocks after = timeBlocks before ++ [added]
  /\ hasConflicts Scenario.host after = true.
Proof. repeat split. Qed.

(** ** The times the routes read *)

Lemma digit_not_colon c d : JS.digit c = Some d -> Ascii.eqb c ":" = false.
Proof.
  destruct c as [[] [] [] [] [] [] [] []]; vm_compute; congruence.
Qed.

Lemma digit_range c d : JS.digit c = Some d -> 0 <= d <= 9.
Proof.
  unfold JS.digit.
  destruct ((48 <=? Z.of_nat (nat_of_ascii c)) && (Z.of_nat (nat_of_ascii c) <=? 57))
    eqn:Hr; [| discriminate].
  apply andb_true_iff in Hr as [Hlo Hhi]. intros [= <-]. lia.
Qed.

Lemma split_two_digits h1 h2 m1 m2 a b c d :
  JS.digit h1 = Some a -> JS.digit h2 = Some b ->
  JS.digit m1 = Some c -> JS.digit m2 = Some d ->
  map JS.Number (JS.split ":" (string_of_list_ascii [h1; h2; ":"%char; m1; m2]))
  = [Some (10 * a + b); Some (10 * c + d)].
Proof.
  intros H1 H2 H3 H4.
  cbn [string_of_list_ascii JS.split].
  rewrite (digit_not_colon _ _ H1), (digit_not_colon _ _ H2).
  rewrite (digit_not_colon _ _ H3), (digit_not_colon _ _ H4).
  change (Ascii.eqb ":" ":") with true.
  cbn [map JS.Number JS.digitsValue]. rewrite H1, H2, H3, H4.
  rewrite !Z.mul_0_r, !Z.add_0_l. reflexivity.
Qed.

Lemma split_one_digit h1 m1 m2 a c d :
  JS.digit h1 = Some a -> JS.digit m1 = Some c -> JS.digit m2 = Some d ->
  map JS.Number (JS.split ":" (string_of_list_ascii [h1; ":"%char; m1; m2]))
  = [Some a; Some (10 * c + d)].
Proof.
  intros H1 H3 H4.
  cbn [string_of_list_ascii JS.split].
  rewrite (digit_not_colon _ _ H1), (digit_not_colon _ _ H3), (digit_not_colon _ _ H4).
  change (Ascii.eqb ":" ":") with true.
  cbn [map JS.Number JS.digitsValue]. rewrite H1, H3, H4.
  rewrite !Z.mul_0_r, !Z.add_0_l. reflexivity.
Qed.

(** [parseTime] reads the minute of the day that the time names, on the
    local day of now. *)
Lemma parseTime_minuteOfDay h t :
  parseTime h t
  = option_map (fun m => UTC h (localMidnight h + m * msPerMinute)) (minuteOfDay t).
Proof.
  unfold parseTime, minuteOfDay.
  destruct (map JS.Number (JS.split ":" t)) as [| [hours |] [| [minutes |] rest]];
    try reflexivity.
  cbn [option_map]. unfold setHours, msPerHour, msPerMinute. do 2 f_equal. lia.
Qed.

Lemma isDigit_digit c : JS.isDigit c = true -> exists d, JS.digit c = Some d /\ 0 <= d <= 9.
Proof.
  unfold JS.isDigit. destruct (JS.digit c) as [d |] eqn:Hd; [| discriminate].
  intros _. exists d. split; [reflexivity | now apply digit_range in Hd].
Qed.

Lemma digitUpTo_digit n c :
  digitUpTo n c = true -> exists d, JS.digit c = Some d /\ 0 <= d <= n.
Proof.
  unfold digitUpTo. destruct (JS.digit c) as [d |] eqn:Hd; [| discriminate].
  intros Hle. apply Z.leb_le in Hle. exists d. split; [reflexivity |].
  apply digit_range in Hd. lia.
Qed.

(** What the two readers make of a time that the pattern accepts. *)
Lemma matchesTime_readings (h : Host) (t : string) :
  matchesTime t = true ->
  exists m,
    0 <= m < 1440
    /\ minuteOfDay t = Some m
    /\ parseTime h t = Some (UTC h (localMidnight h + m * msPerMinute))
    /\ dateOfTime h t
       = if Nat.eqb (String.length t) 5
         then Some (UTC h (newYear2000 + m * msPerMinute))
         else None.
Proof.
  rewrite parseTime_minuteOfDay.
  rewrite <- (string_of_list_ascii_of_string t).
  generalize (list_ascii_of_string t). intros l.
  unfold matchesTime, dateOfTime, minuteOfDay.
  rewrite list_ascii_of_string_of_list_ascii.
  destruct l as [| h1 [| h2 [| c3 [| c4 [| c5 [| extra rest]]]]]]; try discriminate.
  - (* H:MM *)
    intros Hm.
    apply andb_true_iff in Hm as [Hm H4]. apply andb_true_iff in Hm as [Hm H3].
    apply andb_true_iff in Hm as [H1 Hc].
    apply Ascii.eqb_eq in Hc. subst h2.
    apply isDigit_digit in H1 as (a & H1 & Ha).
    apply digitUpTo_digit in H3 as (c & H3 & Hc).
    apply isDigit_digit in H4 as (d & H4 & Hd).
    exists (60 * a + (10 * c + d)). split; [lia |].
    rewrite (split_one_digit h1 c3 c4 a c d H1 H3 H4).
    repeat split.
  - (* HH:MM *)
    intros Hm.
    apply andb_true_iff in Hm as [Hm H4]. apply andb_true_iff in Hm as [Hm H3].
    apply andb_true_iff in Hm as [Hh Hc].
    apply Ascii.eqb_eq in Hc. subst c3.
    apply digitUpTo_digit in H3 as (c & H3 & Hc).
    apply isDigit_digit in H4 as (d & H4 & Hd).
    assert (Hhour : exists a b, JS.digit h1 = Some a /\ JS.digit h2 = Some b
                                /\ 0 <= 10 * a + b <= 23).
    { apply orb_true_iff in Hh as [Hh | Hh]; apply andb_true_iff in Hh as [Ha Hb].
      - apply digitUpTo_digit in Ha as (a & Ha & Hra).
        apply isDigit_digit in Hb as (b & Hb & Hrb).
        exists a, b. repeat split; auto; lia.
      - apply Ascii.eqb_eq in Ha. subst h1.
        apply digitUpTo_digit in Hb as (b & Hb & Hrb).
        exists 2, b. repeat split; auto; lia. }
    destruct Hhour as (a & b & H1 & H2 & Hab).
    exists (60 * (10 * a + b) + (10 * c + d)). split; [lia |].
    rewrite (split_two_digits h1 h2 c4 c5 a b c d H1 H2 H3 H4).
    split; [reflexivity |]. split; [reflexivity |].
    rewrite H1, H2, H3, H4. cbv zeta.
    change (Ascii.eqb ":" ":") with true. rewrite andb_true_l.
    replace ((10 * a + b <=? 23) && (10 * c + d <=? 59)) with true
      by (symmetry; apply andb_true_iff; split; apply Z.leb_le; lia).
    rewrite orb_true_l.
    change (Nat.eqb (String.length (string_of_list_ascii [h1; h2; ":"%char; c4; c5])) 5)
      with true.
    cbv iota. unfold msPerHour, msPerMinute. do 2 f_equal. lia.
Qed.

Lemma matchesTime_minuteOfDay t :
  matchesTime t = true -> exists m, 0 <= m < 1440 /\ minuteOfDay t = Some m.
Proof.
  intros Hm.
  destruct (matchesTime_readings (fixedOffset 0 0) t Hm) as (m & Hr & Hp & _).
  exists m. now split.
Qed.

(** A time of the pattern with a two-digit hour gives a Date. *)
Lemma matchesTime_dateOfTime h t :
  matchesTime t = true -> String.length t = 5%nat -> dateOfTime h t <> None.
Proof.
  intros Hm Hlen.
  destruct (matchesTime_readings h t Hm) as (m & _ & _ & _ & Hd).
  rewrite Hd, Hlen. discriminate.
Qed.

(** ** Days without a change of the clocks *)

(** On a day over which the offset stays the same, the minutes of the day
    are read one minute apart, in their order. *)
Lemma UTC_on_a_steady_day h midnight minutes m :
  steadyDay h midnight minutes -> 0 <= m < 1440 ->
  UTC h (midnight + m * msPerMinute)
  = m * msPerMinute + (midnight - minutes * msPerMinute).
Proof.
  intros Hsteady Hm. unfold UTC, localTZA. rewrite (Hsteady m Hm). lia.
Qed.

(** Today's readings of [parseTime] are then the times of day, all moved by
    one constant. *)
Lemma parseTime_on_a_steady_day h minutes t :
  steadyDay h (localMidnight h) minutes ->
  matchesTime t = true ->
  parseTime h t
  = option_map (fun v => v + (localMidnight h - minutes * msPerMinute)) (timeOfDay t).
Proof.
  intros Hsteady Hm.
  destruct (matchesTime_readings h t Hm) as (m & Hr & Hmin & Hp & _).
  rewrite Hp. unfold timeOfDay. rewrite Hmin. cbn [option_map].
  now rewrite (UTC_on_a_steady_day h _ minutes m Hsteady Hr).
Qed.

(** So are the Dates of the routes, when the offset stays the same over
    1 January 2000. *)
Lemma dateOfTime_on_a_steady_day h minutes t :
  steadyDay h newYear2000 minutes ->
  matchesTime t = true -> String.length t = 5%nat ->
  dateOfTime h t
  = option_map (fun v => v + (newYear2000 - minutes * msPerMinute)) (timeOfDay t).
Proof.
  intros Hsteady Hm Hlen.
  destruct (matchesTime_readings h t Hm) as (m & Hr & Hmin & _ & Hd).
  rewrite Hd, Hlen. unfold timeOfDay. rewrite Hmin. cbn [Nat.eqb option_map].
  now rewrite (UTC_on_a_steady_day h _ minutes m Hsteady Hr).
Qed.

Lemma gt_moved delta x y :
  JS.gt (option_map (fun v => v + delta) x) (option_map (fun v => v + delta) y)
  = JS.gt x y.
Proof.
  destruct x, y; simpl; try reflexivity.
  apply eq_true_iff_eq. rewrite !Z.ltb_lt. lia.
Qed.

Lemma inConflict_dateOfTime h minutes a b :
  steadyDay h newYear2000 minutes ->
  matchesTime (startTime a) = true -> matchesTime (endTime a) = true ->
  matchesTime (startTime b) = true -> matchesTime (endTime b) = true ->
  String.length (startTime a) = 5%nat -> String.length (endTime a) = 5%nat ->
  String.length (startTime b) = 5%nat -> String.length (endTime b) = 5%nat ->
  inConflict (dateOfTime h) a b = inConflict timeOfDay a b.
Proof.
  intros Hsteady M1 M2 M3 M4 L1 L2 L3 L4.
  unfold inConflict, intervalsOverlap, JS.lt.
  rewrite !(dateOfTime_on_a_steady_day h minutes) by assumption.
  now rewrite !gt_moved.
Qed.

(** Blocks that pass the validators with two-digit hours, on a host whose
    offset stays the same over 1 January 2000: what overlaps as times of day
    overlaps as Dates. *)
Lemma ConflictingPair_dateOfTime h minutes blocks :
  steadyDay h newYear2000 minutes ->
  forallb validTimeBlock blocks = true ->
  Forall (fun b => String.length (startTime b) = 5%nat
                   /\ String.length (endTime b) = 5%nat) blocks ->
  Forall (hasStart (dateOfTime h)) blocks
  /\ (ConflictingPair timeOfDay blocks -> ConflictingPair (dateOfTime h) blocks).
Proof.
  intros Hsteady Hv Hp. rewrite forallb_forall in Hv. rewrite Forall_forall in Hp.
  assert (Hd : forall b, In b blocks ->
                 matchesTime (startTime b) = true
                 /\ matchesTime (endTime b) = true).
  { intros b Hb. specialize (Hv b Hb). unfold validTimeBlock in Hv.
    apply andb_true_iff in Hv as [Hv _]. apply andb_true_iff in Hv as [Hv He].
    apply andb_true_iff in Hv as [_ Hs]. now split. }
  split.
  - apply Forall_forall. intros b Hb. destruct (Hd b Hb) as [Hs _].
    destruct (Hp b Hb) as [Ls _]. now apply matchesTime_dateOfTime.
  - intros (i & j & a & b & Hij & Hi & Hj & Hab). exists i, j, a, b.
    repeat split; auto.
    assert (Ha : In a blocks) by (eapply nth_error_In; eassumption).
    assert (Hb : In b blocks) by (eapply nth_error_In; eassumption).
    destruct (Hd a Ha) as [? ?]. destruct (Hd b Hb) as [? ?].
    destruct (Hp a Ha) as [? ?]. destruct (Hp b Hb) as [? ?].
    now rewrite (inConflict_dateOfTime h minutes).
Qed.

(** ** Creating a schedule *)

(** With every start a Date, POST / refuses a list that holds two overlapping
    blocks of one day: it answers with a day and two blocks of that day, at
    distinct positions of the list, the first ending after the second starts,
    and creates nothing. *)
Lemma postSchedule_rejects_overlap h db user id body :
  createErrors body = [] ->
  Forall (hasStart (dateOfTime h)) (cTimeBlocks body) ->
  ConflictingPair (dateOfTime h) (cTimeBlocks body) ->
  exists day a b,
    postSchedule h db user id body = (db, Overlap day (a, b))
    /\ dayOfWeek a = day /\ dayOfWeek b = day
    /\ endsAfterStart (dateOfTime h) a b
    /\ TwoDistinct (fun x y => x = a /\ y = b) (cTimeBlocks body).
Proof.
  intros Hv Hst Hc. unfold postSchedule, overlapIn. rewrite Hv.
  pose proof (overlap_found _ _ Hst Hc) as Hfound.
  destruct (findOverlap (dateOfTime h) (groupByDay (cTimeBlocks body)))
    as [[day [a b]] |] eqn:Hf; [| congruence].
  exists day, a, b. split; [reflexivity |]. now apply reported_pair.
Qed.

(** The same for blocks that overlap as times of day, when the hours are
    written with two digits and the offset of the host stays the same over
    1 January 2000. *)
Lemma postSchedule_rejects_overlap_of_two_digit_hours h minutes db user id body :
  steadyDay h newYear2000 minutes ->
  createErrors body = [] ->
  Forall (fun b => String.length (startTime b) = 5%nat
                   /\ String.length (endTime b) = 5%nat) (cTimeBlocks body) ->
  ConflictingPair timeOfDay (cTimeBlocks body) ->
  exists day a b,
    postSchedule h db user id body = (db, Overlap day (a, b))
    /\ dayOfWeek a = day /\ dayOfWeek b = day
    /\ endsAfterStart (dateOfTime h) a b
    /\ TwoDistinct (fun x y => x = a /\ y = b) (cTimeBlocks body).
Proof.
  intros Hsteady Hv Hp Hc.
  destruct (ConflictingPair_dateOfTime h minutes (cTimeBlocks body)) as [Hst Hcd];
    [assumption | now apply createErrors_nil | assumption |].
  apply postSchedule_rejects_overlap; auto.
Qed.

(** The scenario of the specification: 09:00-10:00 and 09:30-10:30 on day 1
    are refused, with day 1 and the two blocks; 09:00-10:00 and 10:00-11:00
    are accepted. *)
Lemma postSchedule_scenario :
  postSchedule Scenario.host [] "u1" "s1" (Scenario.createBody Scenario.overlapping)
  = ([], Overlap 1 (Scenario.block "b1" 1 "09:00" "10:00",
                    Scenario.block "b2" 1 "09:30" "10:30"))
  /\ exists s,
       postSchedule Scenario.host [] "u1" "s1" (Scenario.createBody Scenario.backToBack)
       = ([s], Created s)
       /\ timeBlocks s = Scenario.backToBack.
Proof.
  split; [reflexivity |]. eexists. split; reflexivity.
Qed.

(** C2, at two overlapping blocks whose hours have one digit: Monday
    9:00-10:00 and 9:30-10:30 pass the validators and overlap as times of day,
    yet POST / answers 201 and stores them; the document's own
    [hasConflicts] then reports the conflict. *)
Theorem postSchedule_misses_overlap_of_one_digit_hours :
  createErrors (Scenario.createBody Scenario.overlappingOneDigit) = []
  /\ ConflictingPair (parseTime Scenario.host) Scenario.overlappingOneDigit
  /\ exists s,
       postSchedule Scenario.host [] "u1" "s1"
         (Scenario.createBody Scenario.overlappingOneDigit)
       = ([s], Created s)
       /\ timeBlocks s = Scenario.overlappingOneDigit
       /\ hasConflicts Scenario.host s = true.
Proof.
  split; [reflexivity |]. split.
  - exists 0%nat, 1%nat, (Scenario.block "b1" 1 "9:00" "10:00"),
      (Scenario.block "b2" 1 "9:30" "10:30").
    repeat split. discriminate.
  - eexists. repeat split.
Qed.

(** ** Updating a schedule *)

(** Whatever PUT /:id answers other than 200, the collection is as before. *)
Lemma putSchedule_writes_only_on_Ok h db user id body db' r :
  putSchedule h db user id body = (db', r) ->
  (forall s, r <> Ok s) -> db' = db.
Proof.
  unfold putSchedule. intros H Hr. revert H.
  destruct (updateErrors body); [| now intros [= <- _]].
  destruct (findOne db id user) as [s |]; [| now intros [= <- _]].
  destruct (match uTimeBlocks body with
            | Some blocks => overlapIn h blocks
            | None => None
            end) as [[day found] |]; [now intros [= <- _] |].
  destruct (validSet body); [| now intros [= <- _]].
  intros [= _ <-]. now destruct (Hr (applySet h s body)).
Qed.

(** With every start a Date, PUT /:id refuses a supplied list that holds two
    overlapping blocks of one day, whatever the stored blocks are, and leaves
    the collection as it was; the pair is looked for in the supplied list
    only. *)
Lemma putSchedule_rejects_overlap h db user id body blocks :
  uTimeBlocks body = Some blocks ->
  updateErrors body = [] ->
  findOne db id user <> None ->
  Forall (hasStart (dateOfTime h)) blocks ->
  ConflictingPair (dateOfTime h) blocks ->
  exists day a b,
    putSchedule h db user id body = (db, Overlap day (a, b))
    /\ dayOfWeek a = day /\ dayOfWeek b = day
    /\ endsAfterStart (dateOfTime h) a b
    /\ TwoDistinct (fun x y => x = a /\ y = b) blocks.
Proof.
  intros Hb Hv Hs Hst Hc. unfold putSchedule, overlapIn. rewrite Hv, Hb.
  destruct (findOne db id user) as [s |]; [| congruence].
  pose proof (overlap_found _ _ Hst Hc) as Hfound.
  destruct (findOverlap (dateOfTime h) (groupByDay blocks))
    as [[day [a b]] |] eqn:Hf; [| congruence].
  exists day, a, b. split; [reflexivity |]. now apply reported_pair.
Qed.

Lemma updateErrors_nil body blocks :
  uTimeBlocks body = Some blocks -> updateErrors body = [] ->
  forallb validTimeBlock blocks = true.
Proof.
  unfold updateErrors. intros -> H.
  apply app_eq_nil in H as [_ H]. apply app_eq_nil in H as [_ H].
  eapply block_chains_nil, H.
Qed.

Lemma putSchedule_rejects_overlap_of_two_digit_hours h minutes db user id body blocks :
  steadyDay h newYear2000 minutes ->
  uTimeBlocks body = Some blocks ->
  updateErrors body = [] ->
  findOne db id user <> None ->
  Forall (fun b => String.length (startTime b) = 5%nat
                   /\ String.length (endTime b) = 5%nat) blocks ->
  ConflictingPair timeOfDay blocks ->
  exists day a b,
    putSchedule h db user id body = (db, Overlap day (a, b))
    /\ dayOfWeek a = day /\ dayOfWeek b = day
    /\ endsAfterStart (dateOfTime h) a b
    /\ TwoDistinct (fun x y => x = a /\ y = b) blocks.
Proof.
  intros Hsteady Hb Hv Hs Hp Hc.
  destruct (ConflictingPair_dateOfTime h minutes blocks) as [Hst Hcd];
    [assumption | eapply updateErrors_nil; eassumption | assumption |].
  apply putSchedule_rejects_overlap; auto.
Qed.

(** The stored blocks take no part in the validation: a list without
    overlap replaces blocks it would overlap with. *)
Lemma putSchedule_not_merged :
  exists after,
    putSchedule Scenario.host
      [Scenario.stored [Scenario.block "b1" 1 "09:00" "10:00"]] "u1" "s1"
      (Scenario.updateBlocks [Scenario.block "b2" 1 "09:30" "10:30"])
    = ([after], Ok after)
    /\ timeBlocks after = [Scenario.block "b2" 1 "09:30" "10:30"].
Proof. eexists. split; reflexivity. Qed.

Lemma putSchedule_scenario :
  putSchedule Scenario.host [Scenario.stored Scenario.backToBack] "u1" "s1"
    (Scenario.updateBlocks Scenario.overlapping)
  = ([Scenario.stored Scenario.backToBack],
     Overlap 1 (Scenario.block "b1" 1 "09:00" "10:00",
                Scenario.block "b2" 1 "09:30" "10:30")).
Proof. reflexivity. Qed.

(** C5, at a supplied list of two overlapping blocks whose hours have one
    digit: PUT /:id answers 200 and the stored blocks are replaced by the
    overlapping ones. *)
Theorem putSchedule_misses_overlap_of_one_digit_hours :
  let before := Scenario.stored Scenario.backToBack in
  updateErrors (Scenario.updateBlocks Scenario.overlappingOneDigit) = []
  /\ ConflictingPair (parseTime Scenario.host) Scenario.overlappingOneDigit
  /\ exists after,
       putSchedule Scenario.host [before] "u1" "s1"
         (Scenario.updateBlocks Scenario.overlappingOneDigit)
       = ([after], Ok after)
       /\ timeBlocks after = Scenario.overlappingOneDigit
       /\ timeBlocks after <> timeBlocks before
       /\ hasConflicts Scenario.host after = true.
Proof.
  split; [reflexivity |]. split.
  - exists 0%nat, 1%nat, (Scenario.block "b1" 1 "9:00" "10:00"),
      (Scenario.block "b2" 1 "9:30" "10:30").
    repeat split. discriminate.
  - eexists. repeat split. discriminate.
Qed.

(** C10. An update that supplies no [timeBlocks] runs no overlap validation:
    PUT /:id never answers with an overlap for it, and when its fields are
    valid and the schedule exists the update is applied, the stored blocks
    staying as they were, conflicting or not. *)
Theorem putSchedule_without_timeBlocks_is_not_checked (h : Host) (db : Db)
    (user id : ObjectId) (body : UpdateBody) :
  uTimeBlocks body = None ->
  (forall day found, snd (putSchedule h db user id body) <> Overlap day found)
  /\ (forall s,
        findOne db id user = Some s ->
        updateErrors body = [] ->
        validSet body = true ->
        putSchedule h db user id body
        = (store db (applySet h s body), Ok (applySet h s body))
        /\ timeBlocks (applySet h s body) = timeBlocks s
        /\ hasConflicts h (applySet h s body) = hasConflicts h s).
Proof.
  intros Hnone. split.
  - intros day found. unfold putSchedule. rewrite Hnone.
    destruct (updateErrors body); [| discriminate].
    destruct (findOne db id user); [| discriminate].
    destruct (validSet body); discriminate.
  - intros s Hs Hv Hset. unfold putSchedule. rewrite Hv, Hs, Hnone, Hset.
    assert (Hsame : timeBlocks (applySet h s body) = timeBlocks s)
      by (unfold applySet; simpl; now rewrite Hnone).
    repeat split; [exact Hsame |].
    unfold hasConflicts. now rewrite Hsame.
Qed.

Lemma putSchedule_without_timeBlocks_is_not_checked_witness :
  let before := Scenario.stored Scenario.overlapping in
  let body := mkUpdateBody (Some "Evenings") None (Some false) None None in
  hasConflicts Scenario.host before = true
  /\ putSchedule Scenario.host [before] "u1" "s1" body
     = ([applySet Scenario.host before body], Ok (applySet Scenario.host before body))
  /\ hasConflicts Scenario.host (applySet Scenario.host before body) = true.
Proof.
  intros before body.
  destruct (putSchedule_without_timeBlocks_is_not_checked Scenario.host [before]
              "u1" "s1" body eq_refl) as [_ Hok].
  destruct (Hok before eq_refl eq_refl eq_refl) as (Hput & _ & Hsame).
  split; [reflexivity |]. split; [exact Hput |].
  rewrite Hsame. reflexivity.
Defined.

(** ** Occurrences *)

(** A day between two days, all three given. *)
Ltac concrete_range := split; apply Z.leb_le; reflexivity.

Section ProjectionFacts.
Import Projection.
Variable monthlyAllows : Z -> Z -> bool.

Lemma In_daysOfRange from to day : In day (daysOfRange from to) <-> from <= day <= to.
Proof.
  unfold daysOfRange. rewrite in_map_iff. split.
  - intros (i & <- & Hi). apply in_seq in Hi. lia.
  - intros Hd. exists (Z.to_nat (day - from)). split; [lia |].
    apply in_seq. lia.
Qed.

Lemma occurrenceOn_day s day o :
  occurrenceOn monthlyAllows s day = Some o -> onDay o = day.
Proof.
  unfold occurrenceOn.
  destruct (candidate monthlyAllows (recurring s) day); [| discriminate].
  destruct (exceptionOn s day) as [e |]; [destruct (action e) |];
    try discriminate; now intros [= <-].
Qed.

(** The projection holds the occurrence of each day of the range that has
    one, and nothing else. *)
Lemma In_projectOccurrences s from to o :
  In o (projectOccurrences monthlyAllows s from to) <->
  from <= onDay o <= to /\ occurrenceOn monthlyAllows s (onDay o) = Some o.
Proof.
  unfold projectOccurrences. rewrite in_flat_map. split.
  - intros (day & Hday & Ho). apply In_daysOfRange in Hday.
    destruct (occurrenceOn monthlyAllows s day) as [o' |] eqn:Hocc; [| destruct Ho].
    destruct Ho as [<- | []].
    rewrite (occurrenceOn_day _ _ _ Hocc). auto.
  - intros [Hday Ho]. exists (onDay o). split; [now apply In_daysOfRange |].
    rewrite Ho. now left.
Qed.
End ProjectionFacts.

(** C8. For the weekly schedule that starts on Monday 1 January 2024 with a
    study block on day 1, 09:00-10:00, and the exception (8 January, skip),
    the projection over 1 to 15 January has the occurrences of 1 and of
    15 January and none on 8 January. For every schedule and every candidate
    date of the range: under a skip exception there is no occurrence of that
    date; under a modify exception the occurrence of that date is there and
    carries [modifiedTimeBlocks]; without exception it carries the blocks of
    the weekday. *)
Theorem projectOccurrences_respects_exceptions (monthlyAllows : Z -> Z -> bool) :
  (let jan d := Projection.daysFromCivil 2024 1 d in
   let occurrences :=
     Projection.projectOccurrences monthlyAllows
       (Scenario.weeklySchedule [Scenario.skipJan8]) (jan 1) (jan 15) in
   Projection.weekdayOf (jan 1) = 1
   /\ In (Projection.mkOccurrence (jan 1) (Projection.Normal [Scenario.mondayStudy]))
        occurrences
   /\ In (Projection.mkOccurrence (jan 15) (Projection.Normal [Scenario.mondayStudy]))
        occurrences
   /\ forall o, In o occurrences -> Projection.onDay o <> jan 8)
  /\ forall s from to day,
       from <= day <= to ->
       Projection.candidate monthlyAllows (recurring s) day = true ->
       let occurrences := Projection.projectOccurrences monthlyAllows s from to in
       match Projection.exceptionOn s day with
       | Some e =>
           match action e with
           | skip => forall o, In o occurrences -> Projection.onDay o <> day
           | modify =>
               In (Projection.mkOccurrence day
                     (Projection.Substituted (modifiedTimeBlocks e))) occurrences
               /\ forall o, In o occurrences -> Projection.onDay o = day ->
                    Projection.effective o
                    = Projection.Substituted (modifiedTimeBlocks e)
           end
       | None =>
           In (Projection.mkOccurrence day
                 (Projection.Normal
                    (filter (fun b => dayOfWeek b =? Projection.weekdayOf day)
                       (timeBlocks s))))
              occurrences
       end.
Proof.
  split.
  - cbv zeta. split; [reflexivity |].
    split; [apply In_projectOccurrences; split; [concrete_range | reflexivity] |].
    split; [apply In_projectOccurrences; split; [concrete_range | reflexivity] |].
    intros o Ho Hday. apply In_projectOccurrences in Ho as [_ Ho].
    rewrite Hday in Ho. discriminate.
  - intros s from to day Hrange Hcand occurrences. subst occurrences.
    destruct (Projection.exceptionOn s day) as [e |] eqn:He;
      [destruct (action e) eqn:Ha |].
    + intros o Ho Hday. apply In_projectOccurrences in Ho as [_ Ho].
      rewrite Hday in Ho. unfold Projection.occurrenceOn in Ho.
      rewrite Hcand, He, Ha in Ho. discriminate.
    + split.
      * apply In_projectOccurrences. simpl. split; [assumption |].
        unfold Projection.occurrenceOn. now rewrite Hcand, He, Ha.
      * intros o Ho Hday. apply In_projectOccurrences in Ho as [_ Ho].
        rewrite Hday in Ho. unfold Projection.occurrenceOn in Ho.
        rewrite Hcand, He, Ha in Ho. now injection Ho as <-.
    + apply In_projectOccurrences. simpl. split; [assumption |].
      unfold Projection.occurrenceOn. now rewrite Hcand, He.
Qed.

Lemma projectOccurrences_respects_exceptions_witness :
  In (Projection.mkOccurrence (Projection.daysFromCivil 2024 1 8)
        (Projection.Substituted Scenario.makeup))
     (Projection.projectOccurrences (fun _ _ => false)
        (Scenario.weeklySchedule [Scenario.modifyJan8])
        (Projection.daysFromCivil 2024 1 1) (Projection.daysFromCivil 2024 1 15)).
Proof.
  assert (Hrange : Projection.daysFromCivil 2024 1 1
                   <= Projection.daysFromCivil 2024 1 8
                   <= Projection.daysFromCivil 2024 1 15) by concrete_range.
  assert (Hcand : Projection.candidate (fun _ _ => false)
                    (recurring (Scenario.weeklySchedule [Scenario.modifyJan8]))
                    (Projection.daysFromCivil 2024 1 8) = true)
    by (vm_compute; reflexivity).
  pose proof (proj2 (projectOccurrences_respects_exceptions (fun _ _ => false))
                (Scenario.weeklySchedule [Scenario.modifyJan8])
                (Projection.daysFromCivil 2024 1 1)
                (Projection.daysFromCivil 2024 1 15)
                (Projection.daysFromCivil 2024 1 8) Hrange Hcand) as Hocc.
  vm_compute in Hocc. destruct Hocc as [Hocc _].
  vm_compute. exact Hocc.
Defined.

(** * Further properties of the schedule model and its routes *)

(** ** Days apart *)

Lemma TwoDistinct_same_key {A B : Type} (key : A -> B) (l : list A) :
  NoDup (map key l) ->
  ~ TwoDistinct (fun a b => key a = key b) l.
Proof.
  intros Hnd (i & j & a & b & Hij & Hi & Hj & Hk).
  apply Hij. rewrite NoDup_nth_error in Hnd. apply Hnd.
  - rewrite length_map. apply nth_error_Some. congruence.
  - rewrite !nth_error_map, Hi, Hj. simpl. now rewrite Hk.
Qed.

(** X1. Blocks of different days never conflict, whatever their times: a
    schedule with at most one block per day, in particular one without blocks
    or with a single block, has no conflict. *)
Theorem hasConflicts_false_on_distinct_days (h : Host) (s : Schedule) :
  NoDup (map dayOfWeek (timeBlocks s)) -> hasConflicts h s = false.
Proof.
  intros Hnd. unfold hasConflicts.
  destruct (findOverlap (parseTime h) (groupByDay (timeBlocks s)))
    as [[day [a b]] |] eqn:Hf; [exfalso | reflexivity].
  apply reported_pair in Hf as (Ha & Hb & _ & i & j & x & y & Hij & Hi & Hj & -> & ->).
  apply (TwoDistinct_same_key dayOfWeek (timeBlocks s) Hnd).
  exists i, j, a, b. repeat split; auto. congruence.
Qed.

Lemma hasConflicts_false_on_distinct_days_witness :
  hasConflicts Scenario.host
    (Scenario.stored [Scenario.block "b1" 1 "09:00" "10:00";
                      Scenario.block "b2" 2 "09:30" "10:30";
                      Scenario.block "b3" 3 "10:00" "09:00"]) = false.
Proof.
  apply hasConflicts_false_on_distinct_days. simpl.
  repeat constructor; simpl; intuition discriminate.
Defined.

(** ** Fewer blocks, no more conflicts *)

Lemma ConflictingPair_filter timeOf (keep : TimeBlock -> bool) blocks :
  ConflictingPair timeOf (filter keep blocks) -> ConflictingPair timeOf blocks.
Proof.
  unfold ConflictingPair. intros H.
  apply TwoDistinct_PairIn; [intros a b; apply inConflict_sym |].
  apply TwoDistinct_PairIn in H; [| intros a b; apply inConflict_sym].
  apply PairIn_filter in H. eapply PairIn_impl; [| exact H]. simpl. tauto.
Qed.

(** X2. On a schedule whose blocks all start before they end, removing a
    block creates no conflict: if [hasConflicts] was false it is false of the
    schedule that DELETE /:id/time-blocks/:blockId writes. *)
Theorem deleteTimeBlock_adds_no_conflict (h : Host) (db db' : Db)
    (user id : ObjectId) (s saved : Schedule) (blockId : string) :
  findOne db id user = Some s ->
  Forall (fun b => startsBeforeEnd (parseTime h) b = true) (timeBlocks s) ->
  hasConflicts h s = false ->
  deleteTimeBlock h db user id blockId = (db', Ok saved) ->
  timeBlocks saved = withoutBlock blockId (timeBlocks s)
  /\ hasConflicts h saved = false.
Proof.
  intros Hs Hok Hfree. unfold deleteTimeBlock, withSchedule, removeTimeBlock, save.
  rewrite Hs.
  destruct (validSchedule (setTimeBlocks s (withoutBlock blockId (timeBlocks s))));
    [| discriminate].
  intros [= _ <-]. split; [reflexivity |].
  match goal with |- hasConflicts h ?doc = false => set (after := doc) end.
  destruct (hasConflicts h after) eqn:Hc; [exfalso | reflexivity].
  apply hasConflicts_iff in Hc.
  - simpl in Hc. apply ConflictingPair_filter in Hc.
    apply (hasConflicts_iff h s Hok) in Hc. congruence.
  - simpl. unfold withoutBlock. rewrite Forall_forall in *.
    intros b Hb. apply filter_In in Hb as [Hb _]. auto.
Qed.

Lemma deleteTimeBlock_adds_no_conflict_witness :
  hasConflicts Scenario.host
    (setUpdatedAt (Scenario.stored [Scenario.block "b1" 1 "09:00" "10:00"])
       (now Scenario.host)) = false.
Proof.
  apply (deleteTimeBlock_adds_no_conflict Scenario.host
           [Scenario.stored Scenario.backToBack]
           [setUpdatedAt (Scenario.stored [Scenario.block "b1" 1 "09:00" "10:00"])
              (now Scenario.host)]
           "u1" "s1" (Scenario.stored Scenario.backToBack) _ "b2").
  - reflexivity.
  - repeat constructor.
  - reflexivity.
  - reflexivity.
Defined.

(** ** The collection under the routes *)

Lemma isDoc_true id user s :
  isDoc id user s = true <-> scheduleId s = id /\ userId s = user.
Proof.
  unfold isDoc. rewrite andb_true_iff, !String.eqb_eq. tauto.
Qed.

Lemma findOne_Some db id user s :
  findOne db id user = Some s -> In s db /\ scheduleId s = id /\ userId s = user.
Proof.
  intros H. apply find_some in H as [Hin Hdoc]. apply isDoc_true in Hdoc. tauto.
Qed.

Lemma findOne_None db id user :
  findOne db id user = None <->
  (forall s, In s db -> scheduleId s = id -> userId s <> user).
Proof.
  unfold findOne. split.
  - intros H s Hin Hid Huser.
    pose proof (find_none _ _ H s Hin) as Hf.
    assert (isDoc id user s = true) by (apply isDoc_true; auto). congruence.
  - intros H. destruct (find (isDoc id user) db) as [s |] eqn:Hf; [| reflexivity].
    apply find_some in Hf as [Hin Hdoc]. apply isDoc_true in Hdoc as [Hid Huser].
    destruct (H s Hin Hid Huser).
Qed.

(** A document written back is the one found afterwards. *)
Lemma findOne_store db id user s s' :
  findOne db id user = Some s -> scheduleId s' = id -> userId s' = user ->
  findOne (store db s') id user = Some s'.
Proof.
  unfold findOne, store. intros Hf Hid Huser.
  assert (Hdoc : isDoc id user s' = true) by (apply isDoc_true; auto).
  induction db as [| a db IH]; simpl in *; [discriminate |].
  destruct (String.eqb (scheduleId a) (scheduleId s')) eqn:Ha.
  - now rewrite Hdoc.
  - destruct (isDoc id user a) eqn:Hda.
    + apply isDoc_true in Hda as [Hda _]. apply String.eqb_neq in Ha. congruence.
    + auto.
Qed.

(** Writing a document back touches no document with another [_id]. *)
Lemma store_elsewhere db s n other :
  nth_error db n = Some other -> scheduleId other <> scheduleId s ->
  nth_error (store db s) n = Some other.
Proof.
  intros Hn Hne. unfold store. rewrite nth_error_map, Hn. simpl.
  apply String.eqb_neq in Hne. now rewrite Hne.
Qed.

Lemma store_length db s : List.length (store db s) = List.length db.
Proof. apply length_map. Qed.

Lemma validSchedule_fields s s' :
  name s' = name s -> timeBlocks s' = timeBlocks s ->
  recurring s' = recurring s -> exceptions s' = exceptions s ->
  validSchedule s' = validSchedule s.
Proof.
  unfold validSchedule. now intros -> -> -> ->.
Qed.

(** What the three handlers that call a method of the document write. *)
Lemma withSchedule_save h db user id (change : Schedule -> Schedule) db' r :
  withSchedule db user id (fun s => save h db (change s)) = (db', r) ->
  (db' = db /\ (r = NotFound \/ r = ServerError))
  \/ exists s, findOne db id user = Some s
               /\ validSchedule (change s) = true
               /\ db' = store db (setUpdatedAt (change s) (now h))
               /\ r = Ok (setUpdatedAt (change s) (now h)).
Proof.
  unfold withSchedule, save.
  destruct (findOne db id user) as [s |]; [| intros [= <- <-]; auto].
  destruct (validSchedule (change s)) eqn:Hv; intros [= <- <-]; [| auto].
  right. exists s. auto.
Qed.

(** X3. A block added through PUT /:id/time-blocks and then removed through
    DELETE /:id/time-blocks/:blockId leaves the blocks the schedule had, when
    no other block carries its [_id]. *)
Theorem add_then_remove_restores_timeBlocks (h h' : Host) (db : Db)
    (user id : ObjectId) (s : Schedule) (block : TimeBlock) :
  findOne db id user = Some s ->
  validSchedule s = true ->
  validTimeBlock block = true ->
  validTimeBlock (castTimeBlock block) = true ->
  (forall b, In b (timeBlocks s) -> _id b <> _id block) ->
  exists db1 added db2 removed,
    putTimeBlock h db user id block = (db1, Ok added)
    /\ timeBlocks added = timeBlocks s ++ [castTimeBlock block]
    /\ deleteTimeBlock h' db1 user id (_id block) = (db2, Ok removed)
    /\ timeBlocks removed = timeBlocks s.
Proof.
  intros Hs Hv Hb Hc Hfresh.
  destruct (findOne_Some _ _ _ _ Hs) as (_ & Hid & Huser).
  set (grown := setTimeBlocks s (timeBlocks s ++ [castTimeBlock block])).
  assert (Hvg : validSchedule grown = true).
  { unfold validSchedule in *. simpl. rewrite forallb_app. simpl. rewrite Hc.
    apply andb_true_iff in Hv as [Hv H4]. apply andb_true_iff in Hv as [Hv H3].
    apply andb_true_iff in Hv as [H1 H2]. now rewrite H1, H2, H3, H4. }
  set (added := setUpdatedAt grown (now h)).
  assert (Hput : putTimeBlock h db user id block = (store db added, Ok added)).
  { unfold putTimeBlock, withSchedule, addTimeBlock, save.
    apply blockErrors_nil in Hb. rewrite Hb, Hs. fold grown. now rewrite Hvg. }
  assert (Hfound : findOne (store db added) id user = Some added)
    by (apply (findOne_store db id user s); auto).
  assert (Hback : withoutBlock (_id block) (timeBlocks added) = timeBlocks s).
  { simpl. unfold withoutBlock. rewrite filter_app. simpl.
    rewrite String.eqb_refl. simpl. rewrite app_nil_r.
    now apply withoutBlock_unknown. }
  set (shrunk := setTimeBlocks added (withoutBlock (_id block) (timeBlocks added))).
  assert (Hvs : validSchedule shrunk = true).
  { rewrite <- Hv. apply validSchedule_fields; auto. }
  exists (store db added), added,
    (store (store db added) (setUpdatedAt shrunk (now h'))),
    (setUpdatedAt shrunk (now h')).
  split; [exact Hput |]. split; [reflexivity |]. split.
  - unfold deleteTimeBlock, withSchedule, removeTimeBlock, save.
    rewrite Hfound. fold shrunk. now rewrite Hvs.
  - exact Hback.
Qed.

Lemma add_then_remove_restores_timeBlocks_witness :
  exists db1 added db2 removed,
    putTimeBlock Scenario.host [Scenario.stored Scenario.backToBack] "u1" "s1"
      (Scenario.block "b3" 1 "09:30" "10:30") = (db1, Ok added)
    /\ timeBlocks added
       = Scenario.backToBack ++ [Scenario.block "b3" 1 "09:30" "10:30"]
    /\ deleteTimeBlock Scenario.host db1 "u1" "s1" "b3" = (db2, Ok removed)
    /\ timeBlocks removed = Scenario.backToBack.
Proof.
  apply (add_then_remove_restores_timeBlocks Scenario.host Scenario.host
           [Scenario.stored Scenario.backToBack] "u1" "s1"
           (Scenario.stored Scenario.backToBack)
           (Scenario.block "b3" 1 "09:30" "10:30")).
  - reflexivity.
  - reflexivity.
  - reflexivity.
  - reflexivity.
  - simpl. intros b [<- | [<- | []]]; discriminate.
Defined.

(** X4. Removing a block id is idempotent: after a successful
    DELETE /:id/time-blocks/:blockId no block of the schedule carries the id,
    and the same request again answers 200 with the same blocks. *)
Theorem deleteTimeBlock_is_idempotent (h h' : Host) (db db1 : Db)
    (user id : ObjectId) (blockId : string) (once : Schedule) :
  deleteTimeBlock h db user id blockId = (db1, Ok once) ->
  (forall b, In b (timeBlocks once) -> _id b <> blockId)
  /\ exists db2 twice,
       deleteTimeBlock h' db1 user id blockId = (db2, Ok twice)
       /\ timeBlocks twice = timeBlocks once.
Proof.
  intros H. unfold deleteTimeBlock, removeTimeBlock in H.
  apply (withSchedule_save h db user id
           (fun s => setTimeBlocks s (withoutBlock blockId (timeBlocks s)))) in H.
  destruct H as [[_ [H | H]] | (s & Hs & Hv & -> & [= ->])]; try discriminate.
  destruct (findOne_Some _ _ _ _ Hs) as (_ & Hid & Huser).
  assert (Hgone : forall b,
            In b (withoutBlock blockId (timeBlocks s)) -> _id b <> blockId).
  { intros b Hb. apply filter_In in Hb as [_ Hb].
    apply negb_true_iff, String.eqb_neq in Hb. exact Hb. }
  split; [exact Hgone |].
  set (once := setUpdatedAt
                 (setTimeBlocks s (withoutBlock blockId (timeBlocks s))) (now h)).
  assert (Hfound : findOne (store db once) id user = Some once)
    by (apply (findOne_store db id user s); auto).
  assert (Hsame : withoutBlock blockId (timeBlocks once) = timeBlocks once)
    by (apply withoutBlock_unknown; exact Hgone).
  exists (store (store db once) (setUpdatedAt once (now h'))),
    (setUpdatedAt once (now h')).
  split; [| reflexivity].
  unfold deleteTimeBlock, withSchedule, removeTimeBlock, save.
  rewrite Hfound, Hsame, setTimeBlocks_same.
  assert (Hvo : validSchedule once = true)
    by (rewrite <- Hv; apply validSchedule_fields; reflexivity).
  now rewrite Hvo.
Qed.

Lemma deleteTimeBlock_is_idempotent_witness :
  exists db2 twice,
    deleteTimeBlock Scenario.host
      [setUpdatedAt (Scenario.stored [Scenario.block "b1" 1 "09:00" "10:00"])
         (now Scenario.host)] "u1" "s1" "b2" = (db2, Ok twice)
    /\ timeBlocks twice = [Scenario.block "b1" 1 "09:00" "10:00"].
Proof.
  apply (deleteTimeBlock_is_idempotent Scenario.host Scenario.host
           [Scenario.stored Scenario.backToBack] _ "u1" "s1" "b2"
           (setUpdatedAt (Scenario.stored [Scenario.block "b1" 1 "09:00" "10:00"])
              (now Scenario.host))).
  reflexivity.
Defined.

(** X5. Toggling twice gives the schedule back: after two
    PUT /:id/toggle the stored document is the one that was there before the
    first, except for [updatedAt], which is the time of the second. *)
Theorem putToggle_twice_restores (h h' : Host) (db db1 : Db)
    (user id : ObjectId) (once : Schedule) :
  putToggle h db user id = (db1, Ok once) ->
  exists s,
    findOne db id user = Some s
    /\ isActive once = negb (isActive s)
    /\ putToggle h' db1 user id
       = (store db1 (setUpdatedAt s (now h')), Ok (setUpdatedAt s (now h'))).
Proof.
  intros H. unfold putToggle, toggleActive in H.
  apply (withSchedule_save h db user id
           (fun s => setIsActive s (negb (isActive s)))) in H.
  destruct H as [[_ [H | H]] | (s & Hs & Hv & -> & [= ->])]; try discriminate.
  destruct (findOne_Some _ _ _ _ Hs) as (_ & Hid & Huser).
  exists s. split; [exact Hs |]. split; [reflexivity |].
  set (once := setUpdatedAt (setIsActive s (negb (isActive s))) (now h)).
  assert (Hfound : findOne (store db once) id user = Some once)
    by (apply (findOne_store db id user s); auto).
  assert (Hback : setUpdatedAt (setIsActive once (negb (isActive once))) (now h')
                  = setUpdatedAt s (now h'))
    by (destruct s; simpl; now rewrite negb_involutive).
  assert (Hvs : validSchedule (setIsActive once (negb (isActive once))) = true)
    by (rewrite <- Hv; apply validSchedule_fields; reflexivity).
  unfold putToggle, withSchedule, toggleActive, save.
  now rewrite Hfound, Hvs, Hback.
Qed.

Lemma putToggle_twice_restores_witness :
  putToggle Scenario.host
    [setUpdatedAt (setIsActive (Scenario.stored Scenario.backToBack) false)
       (now Scenario.host)] "u1" "s1"
  = ([setUpdatedAt (Scenario.stored Scenario.backToBack) (now Scenario.host)],
     Ok (setUpdatedAt (Scenario.stored Scenario.backToBack) (now Scenario.host))).
Proof.
  destruct (putToggle_twice_restores Scenario.host Scenario.host
              [Scenario.stored Scenario.backToBack]
              [setUpdatedAt (setIsActive (Scenario.stored Scenario.backToBack) false)
                 (now Scenario.host)]
              "u1" "s1"
              (setUpdatedAt (setIsActive (Scenario.stored Scenario.backToBack) false)
                 (now Scenario.host)) eq_refl) as (s & Hs & _ & Hput).
  injection Hs as <-. exact Hput.
Defined.

(** X6. A schedule that the caller does not own is out of reach. The
    routes on /:id take the id as a text (neither an ObjectId nor 12
    characters long, or an ObjectId under which no document has the caller as
    [userId]): they write nothing; the two with validators first answer the
    validation errors, if any; then a text that is no ObjectId is answered
    with 500, the cast of the query failing, and an ObjectId with 404. *)
Theorem schedules_of_others_are_out_of_reach (h : Host) (db : Db)
    (user : ObjectId) (idText : string) :
  String.length idText <> 12%nat ->
  (forall s id, In s db -> castObjectId idText = Some id ->
                scheduleId s = id -> userId s <> user) ->
  let answer :=
    match castObjectId idText with Some _ => NotFound | None => ServerError end in
  putToggleAt h db user idText = (db, answer)
  /\ getConflictsAt h db user idText = (db, answer)
  /\ getScheduleAt db user idText = (db, answer)
  /\ (forall blockId, deleteTimeBlockAt h db user idText blockId = (db, answer))
  /\ (forall body,
        putScheduleAt h db user idText body
        = (db, match updateErrors body with
               | [] => answer
               | errors => BadRequest errors
               end))
  /\ (forall body,
        putTimeBlockAt h db user idText body
        = (db, match blockErrors body with
               | [] => answer
               | errors => BadRequest errors
               end)).
Proof.
  intros _ Hnone answer. subst answer.
  unfold putToggleAt, getConflictsAt, getScheduleAt, deleteTimeBlockAt,
    putScheduleAt, putTimeBlockAt, withId.
  destruct (castObjectId idText) as [id |].
  - assert (Hfind : findOne db id user = None).
    { apply findOne_None. intros s Hin Hid. now apply (Hnone s id). }
    unfold putToggle, getConflicts, getSchedule, deleteTimeBlock, putSchedule,
      putTimeBlock, withSchedule.
    rewrite Hfind. repeat split; auto.
    + intros body. destruct (updateErrors body); reflexivity.
    + intros body. destruct (blockErrors body); reflexivity.
  - repeat split; auto.
    + intros body. destruct (updateErrors body); reflexivity.
    + intros body. destruct (blockErrors body); reflexivity.
Qed.

Lemma schedules_of_others_are_out_of_reach_witness :
  let other :=
    mkSchedule "65f1a2b3c4d5e6f708192a3b" "u1" "Week" None true Scenario.backToBack
      (recurring (Scenario.stored [])) [] 0 0 in
  putToggleAt Scenario.host [other] "u2" "65F1A2B3C4D5E6F708192A3B"
  = ([other], NotFound)
  /\ putToggleAt Scenario.host [other] "u2" "s1" = ([other], ServerError).
Proof.
  intros other. split.
  - apply (schedules_of_others_are_out_of_reach Scenario.host [other] "u2"
             "65F1A2B3C4D5E6F708192A3B").
    + discriminate.
    + intros s id [<- | []] _ _. discriminate.
  - apply (schedules_of_others_are_out_of_reach Scenario.host [other] "u2" "s1").
    + discriminate.
    + intros s id [<- | []] _ _. discriminate.
Defined.

Lemma putSchedule_writes h db user id body db' r :
  putSchedule h db user id body = (db', r) ->
  db' = db \/ exists s, scheduleId s = id /\ db' = store db s.
Proof.
  unfold putSchedule.
  destruct (updateErrors body); [| intros [= <- _]; auto].
  destruct (findOne db id user) as [s |] eqn:Hs; [| intros [= <- _]; auto].
  destruct (match uTimeBlocks body with
            | Some blocks => overlapIn h blocks
            | None => None
            end) as [[day found] |]; [intros [= <- _]; auto |].
  destruct (validSet body); intros [= <- _]; [| auto].
  right. exists (applySet h s body). split; [| reflexivity].
  simpl. now apply findOne_Some in Hs.
Qed.

Lemma withSchedule_writes h db user id change db' r :
  withSchedule db user id (fun s => save h db (change s)) = (db', r) ->
  (forall s, scheduleId (change s) = scheduleId s) ->
  db' = db \/ exists s, scheduleId s = id /\ db' = store db s.
Proof.
  intros H Hid. apply withSchedule_save in H.
  destruct H as [[-> _] | (s & Hs & _ & -> & _)]; [auto |].
  right. exists (setUpdatedAt (change s) (now h)). split; [| reflexivity].
  simpl. rewrite Hid. now apply findOne_Some in Hs.
Qed.

(** X7. The four routes that change a schedule write the addressed document
    only: whatever the request and the answer, the collection keeps its
    length and every document with another [_id] stays where and as it was. *)
Theorem routes_write_the_addressed_schedule_only (h : Host) (db : Db)
    (user id : ObjectId) (n : nat) (other : Schedule) :
  nth_error db n = Some other ->
  scheduleId other <> id ->
  forall db' r,
    (exists body, putSchedule h db user id body = (db', r))
    \/ putToggle h db user id = (db', r)
    \/ (exists block, putTimeBlock h db user id block = (db', r))
    \/ (exists blockId, deleteTimeBlock h db user id blockId = (db', r)) ->
    List.length db' = List.length db /\ nth_error db' n = Some other.
Proof.
  intros Hn Hne db' r Hroute.
  assert (Hw : db' = db \/ exists s, scheduleId s = id /\ db' = store db s).
  { destruct Hroute as [[body H] | [H | [[block H] | [blockId H]]]].
    - eapply putSchedule_writes, H.
    - eapply (withSchedule_writes h db user id
                (fun s => setIsActive s (negb (isActive s)))); [exact H | reflexivity].
    - unfold putTimeBlock in H.
      destruct (blockErrors block); [| injection H as <- _; auto].
      eapply (withSchedule_writes h db user id
                (fun s => setTimeBlocks s (timeBlocks s ++ [castTimeBlock block])));
        [exact H | reflexivity].
    - eapply (withSchedule_writes h db user id
                (fun s => setTimeBlocks s (withoutBlock blockId (timeBlocks s))));
        [exact H | reflexivity]. }
  destruct Hw as [-> | (s & Hs & ->)]; [auto |].
  split; [apply store_length |].
  apply store_elsewhere; congruence.
Qed.

Lemma routes_write_the_addressed_schedule_only_witness :
  let other :=
    mkSchedule "s2" "u1" "Other" None true [] (recurring (Scenario.stored []))
      [] 0 0 in
  let db := [Scenario.stored Scenario.backToBack; other] in
  nth_error (fst (putToggle Scenario.host db "u1" "s1")) 1 = Some other.
Proof.
  intros other db.
  assert (Hne : scheduleId other <> "s1") by discriminate.
  destruct (routes_write_the_addressed_schedule_only Scenario.host db "u1" "s1"
              1 other eq_refl Hne
              (fst (putToggle Scenario.host db "u1" "s1"))
              (snd (putToggle Scenario.host db "u1" "s1"))) as [_ Hkept].
  - right. left. apply surjective_pairing.
  - exact Hkept.
Defined.

(** ** The routes' validation and [hasConflicts] *)

Lemma insert_ext_In {A : Type} (cmp cmp' : A -> A -> option Z) a l :
  (forall b, In b l -> cmp a b = cmp' a b) -> JS.insert cmp a l = JS.insert cmp' a l.
Proof.
  induction l as [| b l IH]; intros Hext; simpl; [reflexivity |].
  unfold JS.comesAfter. rewrite Hext by (now left).
  rewrite IH by (intros x Hx; apply Hext; now right). reflexivity.
Qed.

Lemma sort_ext_In {A : Type} (cmp cmp' : A -> A -> option Z) l :
  (forall a b, In a l -> In b l -> cmp a b = cmp' a b) ->
  JS.sort cmp l = JS.sort cmp' l.
Proof.
  induction l as [| a l IH]; intros Hext; simpl; [reflexivity |].
  rewrite IH by (intros x y Hx Hy; apply Hext; now right).
  apply insert_ext_In. intros b Hb. apply Hext; [now left | right].
  eapply Permutation_in; [apply sort_perm | exact Hb].
Qed.

Section Agreement.
Variables timeOf timeOf' : string -> option Z.

Local Abbreviation agree := (agreeOn timeOf timeOf').

Lemma firstOverlap_ext_In l :
  Forall agree l -> firstOverlap timeOf' l = firstOverlap timeOf l.
Proof.
  induction l as [| a l IH]; intros Hl; [reflexivity |].
  destruct l as [| b l]; [reflexivity |].
  inversion Hl as [| ? ? [_ Ha] Hl']; subst.
  pose proof Hl' as Hb. apply Forall_inv in Hb. destruct Hb as [Hb _].
  cbn [firstOverlap]. rewrite Ha, Hb.
  destruct (JS.gt (timeOf (endTime a)) (timeOf (startTime b)));
    [reflexivity | exact (IH Hl')].
Qed.

Lemma findOverlap_ext_In blocks :
  Forall agree blocks ->
  findOverlap timeOf' (groupByDay blocks) = findOverlap timeOf (groupByDay blocks).
Proof.
  intros Hall. destruct (groupByDay_Grouped blocks) as (_ & Hbs & _).
  revert Hbs. generalize (groupByDay blocks). intros m.
  induction m as [| [d bs] m IH]; intros Hbs; simpl; [reflexivity |].
  assert (Hd : Forall agree bs).
  { rewrite (Hbs d bs) by (now left). rewrite Forall_forall in *.
    intros b Hb. apply filter_In in Hb as [Hb _]. auto. }
  rewrite (sort_ext_In (byStart timeOf') (byStart timeOf)).
  - rewrite firstOverlap_ext_In.
    + rewrite IH; [reflexivity |]. intros d' bs' Hin. apply Hbs. now right.
    + eapply Permutation_Forall; [symmetry; apply sort_perm | exact Hd].
  - rewrite Forall_forall in Hd. intros a b Ha Hb. unfold byStart.
    destruct (Hd a Ha) as [-> _]. destruct (Hd b Hb) as [-> _]. reflexivity.
Qed.
End Agreement.

(** The times of the blocks match the pattern, as those of every stored
    block do. *)
Local Abbreviation timesMatch :=
  (fun b : TimeBlock => matchesTime (startTime b) = true
                        /\ matchesTime (endTime b) = true).

(** On a day without a change of the clocks, [hasConflicts] walks the blocks
    by their times of day. *)
Lemma findOverlap_parseTime_on_a_steady_day h minutes blocks :
  steadyDay h (localMidnight h) minutes ->
  Forall timesMatch blocks ->
  findOverlap (parseTime h) (groupByDay blocks)
  = findOverlap timeOfDay (groupByDay blocks).
Proof.
  intros Hsteady Hall.
  set (delta := localMidnight h - minutes * msPerMinute).
  rewrite <- (findOverlap_shift timeOfDay
                (fun t => option_map (fun v => v + delta) (timeOfDay t)) delta)
    by reflexivity.
  apply findOverlap_ext_In.
  eapply Forall_impl; [| exact Hall]. intros b [Hs He].
  split; now apply parseTime_on_a_steady_day.
Qed.

(** So does the validation of the routes, for hours written with two digits
    on a host whose offset stays the same over 1 January 2000. *)
Lemma overlapIn_on_a_steady_day h minutes blocks :
  steadyDay h newYear2000 minutes ->
  Forall timesMatch blocks ->
  Forall (fun b => String.length (startTime b) = 5%nat
                   /\ String.length (endTime b) = 5%nat) blocks ->
  overlapIn h blocks = findOverlap timeOfDay (groupByDay blocks).
Proof.
  intros Hsteady Hall Hlen. unfold overlapIn.
  set (delta := newYear2000 - minutes * msPerMinute).
  rewrite <- (findOverlap_shift timeOfDay
                (fun t => option_map (fun v => v + delta) (timeOfDay t)) delta)
    by reflexivity.
  apply findOverlap_ext_In.
  rewrite Forall_forall in *. intros b Hb.
  destruct (Hall b Hb) as [Hs He]. destruct (Hlen b Hb) as [Ls Le].
  split; now apply dateOfTime_on_a_steady_day.
Qed.

Lemma validTimeBlock_timesMatch blocks :
  forallb validTimeBlock blocks = true -> Forall timesMatch blocks.
Proof.
  intros Hv. rewrite forallb_forall in Hv. apply Forall_forall. intros b Hb.
  specialize (Hv b Hb). unfold validTimeBlock in Hv.
  apply andb_true_iff in Hv as [Hv _]. apply andb_true_iff in Hv as [Hv He].
  apply andb_true_iff in Hv as [_ Hs]. now split.
Qed.

(** On a day without a change of the clocks, what the specification says of
    [hasConflicts] holds of the times of day: on a schedule whose blocks all
    start before they end it is true exactly when two distinct blocks of the
    same [dayOfWeek] have overlapping open intervals, and it gives the same
    value for every reordering of the blocks. *)
Lemma hasConflicts_on_a_steady_day h minutes s :
  steadyDay h (localMidnight h) minutes ->
  Forall timesMatch (timeBlocks s) ->
  Forall (fun b => startsBeforeEnd timeOfDay b = true) (timeBlocks s) ->
  (hasConflicts h s = true <->
   exists i j a b,
     i <> j /\ nth_error (timeBlocks s) i = Some a
     /\ nth_error (timeBlocks s) j = Some b
     /\ dayOfWeek a = dayOfWeek b
     /\ JS.lt (timeOfDay (startTime a)) (timeOfDay (endTime b)) = true
     /\ JS.lt (timeOfDay (startTime b)) (timeOfDay (endTime a)) = true)
  /\ (forall reordered,
        Permutation (timeBlocks s) reordered ->
        hasConflicts h (setTimeBlocks s reordered) = hasConflicts h s).
Proof.
  intros Hsteady Hall Hok.
  assert (Hiff : forall blocks,
            Forall timesMatch blocks ->
            Forall (fun b => startsBeforeEnd timeOfDay b = true) blocks ->
            findOverlap (parseTime h) (groupByDay blocks) <> None
            <-> ConflictingPair timeOfDay blocks).
  { intros blocks Hm Hs.
    rewrite (findOverlap_parseTime_on_a_steady_day h minutes blocks Hsteady Hm).
    now apply findOverlap_iff. }
  split.
  - rewrite hasConflicts_true, (Hiff _ Hall Hok). apply ConflictingPair_spelled.
  - intros reordered Hperm. apply eq_true_iff_eq.
    rewrite !hasConflicts_true. cbn [timeBlocks setTimeBlocks].
    rewrite (Hiff _ Hall Hok).
    rewrite (Hiff reordered)
      by (eapply Permutation_Forall; eassumption).
    unfold ConflictingPair.
    split; apply TwoDistinct_perm;
      try (intros a b; apply inConflict_sym); [symmetry |]; assumption.
Qed.

Section Recast.
(** A change of the blocks that keeps their day and their times, as the
    setters do. *)
Variable f : TimeBlock -> TimeBlock.
Hypothesis f_day : forall b, dayOfWeek (f b) = dayOfWeek b.
Hypothesis f_start : forall b, startTime (f b) = startTime b.
Hypothesis f_end : forall b, endTime (f b) = endTime b.

Local Abbreviation recast :=
  (map (fun entry : Z * list TimeBlock => (fst entry, map f (snd entry)))).

Lemma hasKey_recast d m : hasKey d (recast m) = hasKey d m.
Proof.
  unfold hasKey. induction m as [| [k bs] m IH]; simpl; [reflexivity |].
  now rewrite IH.
Qed.

Lemma newKey_recast d m : newKey d (recast m) = recast (newKey d m).
Proof.
  induction m as [| [k bs] m IH]; simpl; [reflexivity |].
  destruct (keyBefore d k); simpl; [reflexivity | now rewrite IH].
Qed.

Lemma pushInto_recast d b m : pushInto d (f b) (recast m) = recast (pushInto d b m).
Proof.
  induction m as [| [k bs] m IH]; simpl; [reflexivity |].
  destruct (k =? d); simpl; [now rewrite map_app | now rewrite IH].
Qed.

Lemma groupByDay_recast blocks : groupByDay (map f blocks) = recast (groupByDay blocks).
Proof.
  unfold groupByDay. change (@nil (Z * list TimeBlock)) with (recast []) at 1.
  generalize (@nil (Z * list TimeBlock)).
  induction blocks as [| b blocks IH]; intros m; simpl; [reflexivity |].
  rewrite <- IH. f_equal. unfold pushBlock.
  rewrite f_day, hasKey_recast.
  destruct (hasKey (dayOfWeek b) m).
  - apply pushInto_recast.
  - rewrite newKey_recast. apply pushInto_recast.
Qed.

Lemma sort_recast timeOf l :
  JS.sort (byStart timeOf) (map f l) = map f (JS.sort (byStart timeOf) l).
Proof.
  induction l as [| a l IH]; simpl; [reflexivity |].
  rewrite IH. generalize (JS.sort (byStart timeOf) l). intros sorted.
  induction sorted as [| b sorted IHs]; [reflexivity |].
  cbn [map JS.insert]. rewrite IHs.
  unfold JS.comesAfter, byStart. rewrite !f_start.
  destruct (JS.sub (timeOf (startTime a)) (timeOf (startTime b))) as [v |];
    [destruct (0 <? v) |]; reflexivity.
Qed.

Lemma firstOverlap_recast timeOf l :
  firstOverlap timeOf (map f l)
  = option_map (fun found => (f (fst found), f (snd found))) (firstOverlap timeOf l).
Proof.
  induction l as [| a l IH]; [reflexivity |].
  destruct l as [| b l]; [reflexivity |].
  cbn [map firstOverlap] in *. rewrite f_end, f_start.
  destruct (JS.gt (timeOf (endTime a)) (timeOf (startTime b))); [reflexivity | exact IH].
Qed.

Lemma findOverlap_recast timeOf blocks :
  findOverlap timeOf (groupByDay (map f blocks)) = None
  <-> findOverlap timeOf (groupByDay blocks) = None.
Proof.
  rewrite groupByDay_recast. generalize (groupByDay blocks). intros m.
  induction m as [| [d bs] m IH]; simpl; [tauto |].
  rewrite sort_recast, firstOverlap_recast.
  destruct (firstOverlap timeOf (JS.sort (byStart timeOf) bs)); simpl;
    [split; discriminate | exact IH].
Qed.
End Recast.

(** X9. With the hours written in two digits, the validation of the routes
    and [hasConflicts] agree on days without a change of the clocks: a
    schedule that POST / creates, and one that PUT /:id gives new blocks, on a
    host whose offset stays the same over 1 January 2000, has no conflict
    whenever it is asked on a day over which the offset stays the same. *)
Theorem accepted_two_digit_blocks_have_no_conflict (h h' : Host)
    (minutes minutes' : Z) (db db' : Db) (user id : ObjectId)
    (blocks : list TimeBlock) (s : Schedule) :
  steadyDay h newYear2000 minutes ->
  steadyDay h' (localMidnight h') minutes' ->
  Forall (fun b => String.length (startTime b) = 5%nat
                   /\ String.length (endTime b) = 5%nat) blocks ->
  (exists body,
     cTimeBlocks body = blocks
     /\ postSchedule h db user id body = (db', Created s))
  \/ (exists body,
        uTimeBlocks body = Some blocks
        /\ putSchedule h db user id body = (db', Ok s)) ->
  timeBlocks s = map castTimeBlock blocks /\ hasConflicts h' s = false.
Proof.
  intros Hsteady Hsteady' Hlen Hroute.
  assert (Hfacts : forallb validTimeBlock blocks = true
                   /\ overlapIn h blocks = None
                   /\ timeBlocks s = map castTimeBlock blocks).
  { destruct Hroute as [(body & <- & H) | (body & Hb & H)].
    - unfold postSchedule in H.
      destruct (createErrors body) eqn:He; [| discriminate].
      apply createErrors_nil in He.
      destruct (overlapIn h (cTimeBlocks body)) as [[day found] |]; [discriminate |].
      destruct (bStartDate (cRecurring body)); [| discriminate].
      match type of H with
      | context [validSchedule ?d] => destruct (validSchedule d)
      end; [| discriminate].
      injection H as _ <-. auto.
    - unfold putSchedule in H.
      destruct (updateErrors body) eqn:He; [| discriminate].
      apply (updateErrors_nil body blocks Hb) in He.
      destruct (findOne db id user) as [old |]; [| discriminate].
      rewrite Hb in H.
      destruct (overlapIn h blocks) as [[day found] |]; [discriminate |].
      destruct (validSet body); [| discriminate].
      injection H as _ <-. unfold applySet. simpl. rewrite Hb. auto. }
  destruct Hfacts as (Hv & Hnone & Hs). split; [exact Hs |].
  apply validTimeBlock_timesMatch in Hv.
  unfold hasConflicts. rewrite Hs.
  assert (Hfree : findOverlap (parseTime h') (groupByDay (map castTimeBlock blocks))
                  = None).
  { apply findOverlap_recast; try reflexivity.
    rewrite (findOverlap_parseTime_on_a_steady_day h' minutes' blocks Hsteady' Hv).
    now rewrite <- (overlapIn_on_a_steady_day h minutes blocks Hsteady Hv Hlen). }
  now rewrite Hfree.
Qed.

Lemma accepted_two_digit_blocks_have_no_conflict_witness :
  let created :=
    mkSchedule "s1" "u1" "Week" None true Scenario.backToBack
      (mkRecurring true weekly (Projection.dateOfCivil 2024 1 1) None []) []
      (now Scenario.host) (now Scenario.host) in
  timeBlocks created = map castTimeBlock Scenario.backToBack
  /\ hasConflicts (fixedOffset 0 60) created = false.
Proof.
  intros created.
  apply (accepted_two_digit_blocks_have_no_conflict Scenario.host (fixedOffset 0 60)
           0 60 [] [created] "u1" "s1" Scenario.backToBack created).
  - intros m Hm. reflexivity.
  - intros m Hm. reflexivity.
  - repeat constructor.
  - left. exists (Scenario.createBody Scenario.backToBack). split; reflexivity.
Defined.

(** ** Listing, reading and deleting schedules *)

Section SortedByKey.
Context {A : Type}.
Variable compareFn : A -> A -> option Z.
Variable key : A -> Z.
Hypothesis by_key : forall a b, compareFn a b = Some (key a - key b).


End SortedByKey.




Lemma find_app_none {A : Type} (p : A -> bool) l l' :
  find p l = None -> find p (l ++ l') = find p l'.
Proof.
  induction l as [| a l IH]; simpl; [reflexivity |].
  destruct (p a); [discriminate | exact IH].
Qed.

Lemma find_app_some {A : Type} (p : A -> bool) l l' x :
  find p l = Some x -> find p (l ++ l') = Some x.
Proof.
  induction l as [| a l IH]; simpl; [discriminate |].
  destruct (p a); [auto | exact IH].
Qed.

Lemma withoutFirst_app_none matches db last :
  find matches db = None -> matches last = true ->
  withoutFirst matches (db ++ [last]) = db.
Proof.
  induction db as [| a db IH]; simpl; intros Hf Hl.
  - now rewrite Hl.
  - destruct (matches a); [discriminate |]. f_equal. now apply IH.
Qed.

(** X11. A schedule created by POST /, under an [_id] that no document has
    yet, belongs to the caller, is active and has no exceptions; GET /:id
    then answers with it, the documents that were there are found as before,
    and DELETE /:id gives back the collection as it was before the POST. *)
Theorem created_schedule_is_read_and_deleted (h : Host) (db db' : Db)
    (user newId : ObjectId) (body : CreateBody) (s : Schedule) :
  postSchedule h db user newId body = (db', Created s) ->
  (forall x, In x db -> scheduleId x <> newId) ->
  scheduleId s = newId /\ userId s = user /\ isActive s = true
  /\ exceptions s = [] /\ createdAt s = now h
  /\ getSchedule db' user newId = (db', Ok s)
  /\ (forall id' user' x,
        findOne db id' user' = Some x -> findOne db' id' user' = Some x)
  /\ deleteSchedule db' user newId = (db, Deleted).
Proof.
  intros H Hfresh. unfold postSchedule in H.
  destruct (createErrors body); [| discriminate].
  destruct (overlapIn h (cTimeBlocks body)) as [[day found] |]; [discriminate |].
  destruct (bStartDate (cRecurring body)) as [start |]; [| discriminate].
  match type of H with
  | context [validSchedule ?d] => destruct (validSchedule d)
  end; [| discriminate].
  injection H as <- <-.
  match goal with |- scheduleId ?d = _ /\ _ => set (s := d) end.
  assert (Hnone : find (isDoc newId user) db = None).
  { apply findOne_None. intros x Hx Hid. destruct (Hfresh x Hx Hid). }
  assert (Hdoc : isDoc newId user s = true) by (apply isDoc_true; auto).
  assert (Hfound : findOne (db ++ [s]) newId user = Some s).
  { unfold findOne. rewrite find_app_none by exact Hnone. simpl. now rewrite Hdoc. }
  repeat split; try reflexivity.
  - unfold getSchedule. now rewrite Hfound.
  - intros id' user' x Hx. unfold findOne in *. now apply find_app_some.
  - unfold deleteSchedule. rewrite Hfound.
    now rewrite withoutFirst_app_none.
Qed.

Lemma created_schedule_is_read_and_deleted_witness :
  let other := mkSchedule "s2" "u2" "Other" None true []
                 (recurring (Scenario.stored [])) [] 0 0 in
  let created :=
    mkSchedule "s1" "u1" "Week" None true Scenario.backToBack
      (mkRecurring true weekly (Projection.dateOfCivil 2024 1 1) None []) []
      (now Scenario.host) (now Scenario.host) in
  deleteSchedule [other; created] "u1" "s1" = ([other], Deleted).
Proof.
  intros other created.
  apply (created_schedule_is_read_and_deleted Scenario.host [other] [other; created]
           "u1" "s1" (Scenario.createBody Scenario.backToBack) created).
  - reflexivity.
  - simpl. intros x [<- | []]. discriminate.
Defined.

(** ** The times the pattern accepts *)

(** X8. A time that the pattern of the schema and of the validators accepts
    names a minute of the day. [parseTime] reads it, never as NaN, as the
    instant at which the local day of now shows that minute, which on a day
    without a change of the clocks is that many minutes after the instant of
    local midnight. The Date of the routes is the instant at which
    1 January 2000 showed that minute when the hour is written with two
    digits, and an Invalid Date when it is written with one. *)
Theorem accepted_times_are_minutes_of_the_day (h : Host) (t : string) :
  matchesTime t = true ->
  exists m,
    0 <= m < 1440
    /\ minuteOfDay t = Some m
    /\ parseTime h t = Some (UTC h (localMidnight h + m * msPerMinute))
    /\ dateOfTime h t
       = (if Nat.eqb (String.length t) 5
          then Some (UTC h (newYear2000 + m * msPerMinute))
          else None)
    /\ (forall minutes,
          steadyDay h (localMidnight h) minutes ->
          parseTime h t = Some (UTC h (localMidnight h) + m * msPerMinute)).
Proof.
  intros Hm.
  destruct (matchesTime_readings h t Hm) as (m & Hr & Hmin & Hp & Hd).
  exists m. repeat split; try assumption; try lia.
  intros minutes Hsteady. rewrite Hp. f_equal.
  rewrite (UTC_on_a_steady_day h _ minutes m Hsteady Hr).
  replace (localMidnight h) with (localMidnight h + 0 * msPerMinute) at 2 by lia.
  rewrite (UTC_on_a_steady_day h _ minutes 0 Hsteady) by lia. lia.
Qed.

Lemma accepted_times_are_minutes_of_the_day_witness :
  exists m,
    0 <= m < 1440
    /\ minuteOfDay "9:30" = Some m
    /\ parseTime Scenario.newYork "9:30"
       = Some (UTC Scenario.newYork (localMidnight Scenario.newYork + m * msPerMinute))
    /\ dateOfTime Scenario.newYork "9:30" = None.
Proof.
  destruct (accepted_times_are_minutes_of_the_day Scenario.newYork "9:30" eq_refl)
    as (m & Hr & Hmin & Hp & Hd & _).
  exists m. repeat split; try assumption; lia.
Defined.

(** ** The study time of a week *)

(** Two times read by [parseTime] are a whole number of minutes apart,
    whatever the host does with its clocks. *)
Lemma parseTime_distance_whole_minutes h t t' :
  match JS.sub (parseTime h t) (parseTime h t') with
  | Some ms => exists k, ms = k * (1000 * 60)
  | None => True
  end.
Proof.
  rewrite !parseTime_minuteOfDay.
  destruct (minuteOfDay t) as [m |], (minuteOfDay t') as [m' |]; try exact I.
  cbn [option_map JS.sub]. unfold UTC, localTZA, msPerMinute.
  exists (m - offsetMinutes h (localMidnight h + m * 60000) false
          - (m' - offsetMinutes h (localMidnight h + m' * 60000) false)).
  lia.
Qed.

(** On a day without a change of the clocks they are as far apart as the
    minutes of the day they name. *)
Lemma parseTime_distance_on_a_steady_day h minutes t t' :
  steadyDay h (localMidnight h) minutes ->
  matchesTime t = true -> matchesTime t' = true ->
  numMinutes (JS.sub (parseTime h t) (parseTime h t'))
  = JS.sub (minuteOfDay t) (minuteOfDay t').
Proof.
  intros Hsteady Hm Hm'.
  destruct (matchesTime_readings h t Hm) as (m & Hr & Hmin & Hp & _).
  destruct (matchesTime_readings h t' Hm') as (m' & Hr' & Hmin' & Hp' & _).
  rewrite Hp, Hp', Hmin, Hmin'.
  rewrite (UTC_on_a_steady_day h _ minutes m Hsteady Hr).
  rewrite (UTC_on_a_steady_day h _ minutes m' Hsteady Hr').
  cbn [JS.sub numMinutes option_map]. f_equal. unfold msPerMinute.
  replace (m * 60000 + (localMidnight h - minutes * 60000)
           - (m' * 60000 + (localMidnight h - minutes * 60000)))
    with ((m - m') * (1000 * 60)) by lia.
  apply Z.div_mul. discriminate.
Qed.

Lemma numAdd_assoc a b c : numAdd (numAdd a b) c = numAdd a (numAdd b c).
Proof.
  destruct a, b, c; simpl; try reflexivity. f_equal. lia.
Qed.

Lemma fold_minutes h minutes blocks :
  steadyDay h (localMidnight h) minutes ->
  Forall (fun b => matchesTime (startTime b) = true
                   /\ matchesTime (endTime b) = true) blocks ->
  forall total,
    fold_left
      (fun total block =>
         numAdd total
           (numMinutes (JS.sub (parseTime h (endTime block))
                          (parseTime h (startTime block)))))
      blocks total
    = numAdd total (minutesOf blocks).
Proof.
  intros Hsteady.
  induction 1 as [| b blocks [Hs He] _ IH]; intros total; simpl.
  - destruct total; simpl; [f_equal; lia | reflexivity].
  - rewrite IH, (parseTime_distance_on_a_steady_day h minutes) by assumption.
    apply numAdd_assoc.
Qed.

Lemma minutesOf_bounds blocks :
  Forall (fun b => matchesTime (startTime b) = true
                   /\ matchesTime (endTime b) = true) blocks ->
  exists total,
    minutesOf blocks = Some total
    /\ - 1440 * Z.of_nat (List.length blocks) <= total
       <= 1440 * Z.of_nat (List.length blocks).
Proof.
  induction 1 as [| b blocks [Hs He] _ (total & Ht & Hrange)].
  - exists 0. split; [reflexivity | simpl; lia].
  - apply matchesTime_minuteOfDay in Hs as (ms & Hms & Es).
    apply matchesTime_minuteOfDay in He as (me & Hme & Ee).
    exists (me - ms + total). cbn [minutesOf]. rewrite Es, Ee, Ht.
    split; [reflexivity |]. cbn [List.length]. lia.
Qed.

(** X12. On a day without a change of the clocks, the weekly study time of
    a schedule whose study blocks have times of the pattern is the number of
    minutes from start to end, added over the blocks of type study: blocks of
    another type do not count, a block that ends before it starts counts for
    less than nothing, and the total is within 1440 minutes per study block
    of zero. *)
Theorem weeklyStudyTime_is_the_minutes_of_the_study_blocks (h : Host)
    (minutes : Z) (s : Schedule) :
  steadyDay h (localMidnight h) minutes ->
  Forall (fun b => isStudy b = true ->
                   matchesTime (startTime b) = true
                   /\ matchesTime (endTime b) = true) (timeBlocks s) ->
  exists total,
    weeklyStudyTime h s = Some total
    /\ minutesOf (filter isStudy (timeBlocks s)) = Some total
    /\ Z.abs total <= 1440 * Z.of_nat (List.length (filter isStudy (timeBlocks s))).
Proof.
  intros Hsteady Hv.
  assert (Hstudy : Forall (fun b => matchesTime (startTime b) = true
                                    /\ matchesTime (endTime b) = true)
                     (filter isStudy (timeBlocks s))).
  { rewrite Forall_forall in *. intros b Hb.
    apply filter_In in Hb as [Hb Hst]. now apply Hv. }
  destruct (minutesOf_bounds _ Hstudy) as (total & Ht & Hr).
  exists total. split; [| split; [exact Ht | lia]].
  unfold weeklyStudyTime. cbv zeta.
  rewrite (fold_minutes h minutes _ Hsteady Hstudy), Ht. reflexivity.
Qed.

Lemma weeklyStudyTime_is_the_minutes_of_the_study_blocks_witness :
  weeklyStudyTime Scenario.host
    (Scenario.stored
       [Scenario.block "b1" 1 "09:00" "10:30";
        mkTimeBlock "b2" 1 "11:00" "11:15" "Rest" None break low None;
        Scenario.block "b3" 2 "10:00" "9:45"])
  = Some 75.
Proof.
  destruct (weeklyStudyTime_is_the_minutes_of_the_study_blocks Scenario.host 0
              (Scenario.stored
                 [Scenario.block "b1" 1 "09:00" "10:30";
                  mkTimeBlock "b2" 1 "11:00" "11:15" "Rest" None break low None;
                  Scenario.block "b3" 2 "10:00" "9:45"]))
    as (total & Hw & Hm & _).
  - intros m Hm. reflexivity.
  - repeat constructor.
  - rewrite Hw, <- Hm. reflexivity.
Defined.

(** On a day on which the clocks change it is not: in New York on
    10 March 2024 a study block from 01:00 to 04:00 counts two hours. *)
Lemma weeklyStudyTime_on_a_clock_change_day :
  let s := Scenario.stored [Scenario.block "b1" 0 "01:00" "04:00"] in
  weeklyStudyTime Scenario.newYork s = Some 120
  /\ minutesOf (filter isStudy (timeBlocks s)) = Some 180.
Proof. split; vm_compute; reflexivity. Qed.

(** ** Tasks *)






(** ** Study sessions *)

Section SessionFacts.
Import Sessions.

Lemma store_ids db s : map sessionId (store db s) = map sessionId db.
Proof.
  unfold store. rewrite map_map. apply map_ext_in. intros a _.
  destruct (String.eqb (sessionId a) (sessionId s)) eqn:He; [| reflexivity].
  apply String.eqb_eq in He. congruence.
Qed.

Lemma store_absent db s :
  ~ In (sessionId s) (map sessionId db) -> store db s = db.
Proof.
  intros Hno. unfold store. rewrite <- (map_id db) at 2.
  apply map_ext_in. intros a Ha.
  destruct (String.eqb (sessionId a) (sessionId s)) eqn:He; [| reflexivity].
  apply String.eqb_eq in He. exfalso. apply Hno. rewrite <- He. now apply in_map.
Qed.

(** Writing [s'] over [s] changes the number of documents that pass a test
    by what the two contribute. *)
Lemma store_count (p : StudySession -> bool) db s s' :
  NoDup (map sessionId db) -> In s db -> sessionId s' = sessionId s ->
  (List.length (filter p (store db s')) + one (p s)
   = List.length (filter p db) + one (p s'))%nat.
Proof.
  intros Hnd Hin Hid. induction db as [| a db IH]; [destruct Hin |].
  inversion Hnd as [| ? ? Ha Hnd']; subst.
  destruct (String.eqb (sessionId a) (sessionId s')) eqn:He.
  - apply String.eqb_eq in He.
    assert (a = s).
    { destruct Hin as [-> | Hin]; [reflexivity |].
      exfalso. apply Ha. rewrite He, Hid. now apply in_map. }
    subst a.
    assert (Hrest : store db s' = db).
    { apply store_absent. now rewrite Hid. }
    change (store (s :: db) s')
      with ((if String.eqb (sessionId s) (sessionId s') then s' else s) :: store db s').
    rewrite Hrest. rewrite <- Hid, String.eqb_refl. simpl.
    destruct (p s), (p s'); simpl; lia.
  - apply String.eqb_neq in He.
    assert (Hs : In s db).
    { destruct Hin as [-> | Hin]; [congruence | exact Hin]. }
    specialize (IH Hnd' Hs).
    change (store (a :: db) s')
      with ((if String.eqb (sessionId a) (sessionId s') then s' else a) :: store db s').
    apply String.eqb_neq in He. rewrite He. simpl.
    destruct (p a); simpl; lia.
Qed.

Lemma save_Some h db s db' saved :
  save h db s = Some (db', saved) ->
  validSession s = true /\ db' = store db (touch s (now h)) /\ saved = touch s (now h).
Proof.
  unfold save. destruct (validSession s); [| discriminate].
  now intros [= <- <-].
Qed.

Lemma findOne_In db id user wanted s :
  findOne db id user wanted = Some s ->
  In s db /\ sessionId s = id /\ userId s = user /\ wanted s = true.
Proof.
  intros H. apply find_some in H as [Hin H].
  apply andb_true_iff in H as [H Hw]. apply andb_true_iff in H as [Hi Hu].
  apply String.eqb_eq in Hi, Hu. auto.
Qed.

(** What a request other than a start does to the collection: nothing, or
    one document of the collection is written back, with the same [_id] and
    owner, and open only if it was. *)
Lemma handle_writes h db request db' r :
  handle h db request = (db', r) ->
  match request with
  | Start _ _ _ => True
  | _ =>
      db' = db
      \/ exists s s',
           In s db /\ db' = store db s'
           /\ sessionId s' = sessionId s /\ userId s' = userId s
           /\ (isOpen s' = true -> isOpen s = true)
  end.
Proof.
  destruct request as [user newId body | user id | user id
                      | user id body written | user id from to];
    simpl; [trivial | | | |].
  - unfold putPause, withSession, pauseSession.
    destruct (findOne db id user isActive) as [s |] eqn:Hs; [| intros [= <- _]; auto].
    destruct (save h db (withStatus s paused (endTime s))) as [[db1 saved] |] eqn:Hsave;
      intros [= <- _]; [| auto].
    apply save_Some in Hsave as (_ & -> & _). apply findOne_In in Hs as (Hin & _ & _ & Ha).
    right. exists s, (touch (withStatus s paused (endTime s)) (now h)).
    repeat split; auto. intros _. unfold isActive, isOpen in *.
    destruct (status s); congruence.
  - unfold putResume, withSession, resumeSession.
    destruct (findOne db id user isPaused) as [s |] eqn:Hs; [| intros [= <- _]; auto].
    destruct (save h db (withStatus s active (endTime s))) as [[db1 saved] |] eqn:Hsave;
      intros [= <- _]; [| auto].
    apply save_Some in Hsave as (_ & -> & _). apply findOne_In in Hs as (Hin & _ & _ & Ha).
    right. exists s, (touch (withStatus s active (endTime s)) (now h)).
    repeat split; auto. intros _. unfold isPaused, isOpen in *.
    destruct (status s); congruence.
  - unfold putComplete, completeSession.
    destruct (completeErrors body); [| intros [= <- _]; auto].
    destruct (findOne db id user isOpen) as [s |] eqn:Hs; [| intros [= <- _]; auto].
    destruct (save h db (withStatus (withDetails s body) completed (Some (now h))))
      as [[db1 saved] |] eqn:Hsave.
    + apply save_Some in Hsave as (_ & -> & _).
      apply findOne_In in Hs as (Hin & _ & _ & Ha).
      intros H. assert (db' = store db
                  (touch (withStatus (withDetails s body) completed (Some (now h)))
                     (now h))) by (destruct written; now injection H as <- _).
      right. exists s, (touch (withStatus (withDetails s body) completed
                                  (Some (now h))) (now h)).
      repeat split; auto.
    + intros [= <- _]; auto.
  - unfold putBreak.
    destruct from as [from |], to as [to |]; simpl; try (intros [= <- _]; auto).
    unfold withSession, addBreak.
    destruct (findOne db id user (fun _ => true)) as [s |] eqn:Hs;
      [| intros [= <- _]; auto].
    match goal with
    | |- context [save h db ?d] => destruct (save h db d) as [[db1 saved] |] eqn:Hsave
    end; intros [= <- _]; [| auto].
    apply save_Some in Hsave as (_ & -> & _). apply findOne_In in Hs as (Hin & _).
    right. eexists s, _. repeat split; eauto.
Qed.
End SessionFacts.

Section SessionRoutes.
Import Sessions.

(** Whatever the request and the answer, the collection keeps distinct
    [_id]s and at most one open session for each user. *)
Lemma handle_keeps_one_open_each (h : Host) (db : SessionDb) (request : Request) :
  OneOpenEach db -> freshFor db request ->
  OneOpenEach (fst (handle h db request)).
Proof.
  intros [Hnd Hone] Hfresh.
  destruct (handle h db request) as [db' r] eqn:Hh. simpl.
  pose proof (handle_writes h db request db' r Hh) as Hw.
  assert (Hstore : forall s s',
            In s db -> sessionId s' = sessionId s -> userId s' = userId s ->
            (isOpen s' = true -> isOpen s = true) -> OneOpenEach (store db s')).
  { intros s s' Hin Hid Hu Hopen. split; [now rewrite store_ids |].
    intros user. unfold openOf.
    pose proof (store_count
                  (fun x => String.eqb (userId x) user && isOpen x)
                  db s s' Hnd Hin Hid) as Hc.
    specialize (Hone user). unfold openOf in Hone. cbv beta in Hc.
    rewrite Hu in Hc.
    destruct (String.eqb (userId s) user), (isOpen s), (isOpen s');
      simpl in Hc; try lia; discriminate (Hopen eq_refl). }
  destruct request as [user newId body | user id | user id
                      | user id body written | user id from to];
    try (destruct Hw as [-> | (s & s' & Hin & -> & Hid & Hu & Hopen)];
         [now split | now apply (Hstore s s')]).
  clear Hw. simpl in Hh, Hfresh. unfold postSession in Hh.
  destruct (startErrors body); [| injection Hh as <- _; now split].
  destruct (findOpen db user) as [open |] eqn:Hopen;
    [injection Hh as <- _; now split |].
  destruct (sDuration body) as [minutes |]; [| injection Hh as <- _; now split].
  match type of Hh with
  | context [validSession ?d] => destruct (validSession d); set (new := d) in *
  end; injection Hh as <- _; [| now split].
  split.
  - rewrite map_app. simpl. apply NoDup_app_remove_l with (l := []).
    simpl. apply Permutation_NoDup with (l := newId :: map sessionId db).
    + apply Permutation_cons_append.
    + now constructor.
  - intros user'. unfold openOf. rewrite filter_app, length_app. simpl.
    destruct (String.eqb user user') eqn:Hu.
    + apply String.eqb_eq in Hu. subst user'.
      assert (Hzero : filter (fun s => String.eqb (userId s) user && isOpen s) db = []).
      { destruct (filter (fun s => String.eqb (userId s) user && isOpen s) db)
          as [| x rest] eqn:Hf; [reflexivity |].
        assert (Hx : In x (filter (fun s => String.eqb (userId s) user && isOpen s) db))
          by (rewrite Hf; now left).
        apply filter_In in Hx as [Hx Hp].
        unfold findOpen in Hopen. pose proof (find_none _ _ Hopen x Hx). congruence. }
      rewrite Hzero. simpl. lia.
    + simpl. specialize (Hone user'). unfold openOf in Hone. lia.
Qed.

Lemma find_is_the_first_kept {A : Type} (p : A -> bool) (l : list A) :
  find p l = match filter p l with [] => None | x :: _ => Some x end.
Proof.
  induction l as [| a l IH]; simpl; [reflexivity |].
  destruct (p a); [reflexivity | exact IH].
Qed.

(** The open session of a user is the one that [findOpen] finds. *)
Lemma findOpen_the_open_session db s :
  OneOpenEach db -> In s db -> isOpen s = true ->
  findOpen db (userId s) = Some s.
Proof.
  intros [_ Hone] Hin Hopen. unfold findOpen. rewrite find_is_the_first_kept.
  specialize (Hone (userId s)). unfold openOf in Hone.
  assert (Hs : In s (filter (fun x => String.eqb (userId x) (userId s) && isOpen x) db)).
  { apply filter_In. split; [exact Hin |]. now rewrite String.eqb_refl, Hopen. }
  destruct (filter (fun x => String.eqb (userId x) (userId s) && isOpen x) db)
    as [| x [| y rest]]; simpl in Hone, Hs; try lia; try contradiction.
  destruct Hs as [-> | []]. reflexivity.
Qed.

(** X15. The study-sessions router keeps at most one session per user that
    is active or paused: if the collection has distinct [_id]s and that
    property, it still has them after a start (under a new [_id]), a pause, a
    resume, a completion or a break, whatever the answer. A start by a user
    who has an open session is refused and writes nothing: with the
    validation errors if there are any, else with 400 and that session. *)
Theorem sessions_keep_one_open_each (h : Host) (db : SessionDb) (request : Request) :
  OneOpenEach db -> freshFor db request ->
  OneOpenEach (fst (handle h db request))
  /\ (forall user newId body open,
        request = Start user newId body ->
        In open db -> userId open = user -> isOpen open = true ->
        handle h db request
        = (db, match startErrors body with
               | [] => AlreadyActive open
               | errors => BadRequest errors
               end)).
Proof.
  intros Hone Hfresh. split; [now apply handle_keeps_one_open_each |].
  intros user newId body open -> Hin <- Hopen.
  cbn [handle]. unfold postSession.
  destruct (startErrors body); [| reflexivity].
  now rewrite (findOpen_the_open_session db open Hone Hin Hopen).
Qed.

Lemma sessions_keep_one_open_each_witness :
  let running :=
    mkStudySession "a1" "u1" None "Math" 0 None 30 active [] None 5 [] 0 0 in
  let again := Start "u1" "a2" (mkStartBody "Physics" (Some 45) None) in
  OneOpenEach (fst (handle Scenario.host [running] again))
  /\ handle Scenario.host [running] again = ([running], AlreadyActive running).
Proof.
  intros running again.
  destruct (sessions_keep_one_open_each Scenario.host [running] again)
    as [Hkept Hrefused].
  - split.
    + repeat constructor. simpl. tauto.
    + intros user. unfold openOf.
      etransitivity; [apply filter_length_le | apply Nat.le_refl].
  - simpl. intros [H | []]. discriminate H.
  - split; [exact Hkept |].
    exact (Hrefused "u1" "a2" (mkStartBody "Physics" (Some 45) None) running
             eq_refl (or_introl eq_refl) eq_refl eq_refl).
Defined.
End SessionRoutes.

Section SessionMoves.
Import Sessions.



Lemma totalBreakTime_app s extra :
  totalBreakTime (withBreaks s (breaks s ++ [extra]))
  = totalBreakTime s + breakMinutes extra.
Proof.
  unfold totalBreakTime. simpl. now rewrite fold_left_app.
Qed.

(** X17. A break of a session of the caller is stored with the nearest
    number of minutes between its two dates, a half going up, whatever the
    status of the session, and the total break time grows by that number. A
    break that ends more than half a minute before it starts is not stored:
    its duration would be negative, the save fails and the answer is 500. *)
Theorem putBreak_rounds_to_minutes (h : Host) (db : SessionDb) (user id : ObjectId)
    (from to : Z) (s : StudySession) :
  findOne db id user (fun _ => true) = Some s ->
  validSession s = true ->
  let minutes := roundMinutes (to - from) in
  - 30000 <= to - from - 60000 * minutes < 30000
  /\ if to - from <? - 30000
     then putBreak h db user id (Some from) (Some to) = (db, ServerError)
     else exists saved,
            putBreak h db user id (Some from) (Some to) = (store db saved, Ok saved)
            /\ breaks saved = breaks s ++ [mkBreak from to minutes]
            /\ totalBreakTime saved = totalBreakTime s + minutes
            /\ status saved = status s.
Proof.
  intros Hs Hv minutes.
  assert (Hround : - 30000 <= to - from - 60000 * minutes < 30000).
  { subst minutes. unfold roundMinutes.
    pose proof (Z.div_mod (to - from + 30000) 60000 ltac:(lia)) as Hd.
    pose proof (Z.mod_pos_bound (to - from + 30000) 60000 ltac:(lia)) as Hm.
    lia. }
  split; [exact Hround |].
  unfold putBreak. simpl. unfold withSession, addBreak, save. rewrite Hs.
  fold minutes.
  assert (Hvalid : validSession
                     (withBreaks s (breaks s ++ [mkBreak from to minutes]))
                   = (0 <=? minutes)).
  { unfold validSession in *. simpl. rewrite forallb_app. simpl.
    apply andb_true_iff in Hv as [Hv H5]. apply andb_true_iff in Hv as [Hv H4].
    apply andb_true_iff in Hv as [Hv H3]. apply andb_true_iff in Hv as [H1 H2].
    rewrite H1, H2, H3, H4, H5. simpl.
    now rewrite !andb_true_r. }
  rewrite Hvalid.
  destruct (to - from <? - 30000) eqn:Hneg.
  - apply Z.ltb_lt in Hneg.
    replace (0 <=? minutes) with false by (symmetry; apply Z.leb_gt; lia).
    reflexivity.
  - apply Z.ltb_ge in Hneg.
    replace (0 <=? minutes) with true by (symmetry; apply Z.leb_le; lia).
    eexists. split; [reflexivity |]. split; [reflexivity |].
    split; [| reflexivity].
    apply (totalBreakTime_app s (mkBreak from to minutes)).
Qed.

Lemma putBreak_rounds_to_minutes_witness :
  let finished :=
    mkStudySession "a1" "u1" None "Math" 0 (Some 1800000) 30 completed [] None 5 []
      0 0 in
  putBreak Scenario.host [finished] "u1" "a1" (Some 600000) (Some 540000)
  = ([finished], ServerError).
Proof.
  intros finished.
  destruct (putBreak_rounds_to_minutes Scenario.host [finished] "u1" "a1"
              600000 540000 finished eq_refl eq_refl) as [_ Hrefused].
  exact Hrefused.
Defined.
End SessionMoves.

(** ** Blank names and subjects *)




(** ** The day that is reported *)










(** * The order of the routes *)

(** X19. In the tasks router [get('/:id')] is registered before
    [get('/overdue')] and [get('/upcoming')]: no request at all reaches the
    handlers of these two routes, and GET /overdue and GET /upcoming go to
    the handler of [/:id], with the word as the id.  In the study-sessions
    router [get('/active')] comes before [get('/:id')] and is reached. *)
Theorem tasks_overdue_and_upcoming_are_never_reached
    (asked : Routing.Method) (path : list string) :
  Routing.dispatch Routing.taskRoutes asked path <> Some Routing.GetOverdue
  /\ Routing.dispatch Routing.taskRoutes asked path <> Some Routing.GetUpcoming
  /\ Routing.dispatch Routing.taskRoutes Routing.GET ["overdue"]
     = Some Routing.GetTask
  /\ Routing.dispatch Routing.taskRoutes Routing.GET ["upcoming"]
     = Some Routing.GetTask
  /\ Routing.dispatch Routing.sessionRoutes Routing.GET ["active"]
     = Some Routing.GetActive.
Proof.
  assert (Hnot : forall h, h = Routing.GetOverdue \/ h = Routing.GetUpcoming ->
                 Routing.dispatch Routing.taskRoutes asked path <> Some h).
  { intros h Hh. unfold Routing.dispatch, Routing.taskRoutes.
    destruct asked; destruct path as [| [| c s] [| s2 [| s3 path]]];
      cbn [find Routing.takes Routing.handles Routing.method Routing.pattern
           Routing.handler Routing.matchesPath Routing.matchesSegment
           Routing.sameIgnoringCase String.eqb negb andb option_map];
      rewrite ?andb_false_r;
      repeat match goal with
             | |- context [if ?b then _ else _] => destruct b
             end;
      cbn [option_map Routing.handler];
      destruct Hh as [-> | ->]; discriminate. }
  repeat split; try reflexivity; apply Hnot; auto.
Qed.
